(** * IEnergy Portal: session gate (auth.js) and salary lookup (salary-query.js)

    A shallow embedding of the two browser scripts and the properties of
    their specification.

    Conventions of the embedding.
    - A JavaScript string is a [string]: a sequence of code units, each
      below 256 (the Latin-1 part of UTF-16).  [trim] and [toLowerCase]
      are the ECMAScript functions restricted to these code units.
    - A JavaScript number is a [number]: [NaN] or an integer [Num z].
      [Date.now()] is an integer count of milliseconds far below 2^53, so
      the additions and comparisons of the scripts are exact on [Z].
      [Number] reads signed decimal integer literals (surrounded by
      white space, as StringToNumber allows); every other text reads as
      [NaN].  The scripts only ever store [String] of such an integer.
    - The two Web Storage areas are finite maps from keys to strings;
      an area that is blocked is [None], as [safeStorage] returns [null].
    - [Date.now()] is the argument [now] of the functions that read it. *)

From Stdlib Require Import ZArith Lia List Ascii String Bool.
From Stdlib Require Import Decimal DecimalString DecimalPos DecimalZ.
From stdpp Require Import base option gmap strings list fin_maps.

Local Open Scope string_scope.
Local Open Scope Z_scope.

(** ** ECMAScript primitives used by the scripts *)

Module Js.

(** WhiteSpace and LineTerminator code units below 256:
    TAB, LF, VT, FF, CR, SP and NBSP. *)
Definition isWhiteSpace (c : ascii) : bool :=
  match N_of_ascii c with
  | 9%N | 10%N | 11%N | 12%N | 13%N | 32%N | 160%N => true
  | _ => false
  end.

Fixpoint trimStart (s : string) : string :=
  match s with
  | EmptyString => EmptyString
  | String c s' => if isWhiteSpace c then trimStart s' else s
  end.

Fixpoint trimEnd (s : string) : string :=
  match s with
  | EmptyString => EmptyString
  | String c s' =>
      match trimEnd s' with
      | EmptyString => if isWhiteSpace c then EmptyString else String c EmptyString
      | r => String c r
      end
  end.

(** [String.prototype.trim] *)
Definition trim (s : string) : string := trimEnd (trimStart s).

(** Lower-casing of one code unit below 256: A-Z, and the capital
    letters U+00C0..U+00DE except the multiplication sign U+00D7. *)
Definition lowerChar (c : ascii) : ascii :=
  let n := N_of_ascii c in
  if ((65 <=? n) && (n <=? 90))%N
     || ((192 <=? n) && (n <=? 222) && negb (n =? 215))%N
  then ascii_of_N (n + 32)
  else c.

(** [String.prototype.toLowerCase] *)
Fixpoint toLowerCase (s : string) : string :=
  match s with
  | EmptyString => EmptyString
  | String c s' => String (lowerChar c) (toLowerCase s')
  end.

(** JavaScript numbers, as far as the scripts use them. *)
Inductive number : Type :=
  | NaN
  | Num (z : Z).

(** ToBoolean on a number: [NaN] and [0] are falsy. *)
Definition truthyNum (n : number) : bool :=
  match n with
  | NaN => false
  | Num z => negb (z =? 0)
  end.

(** [a > b]: a comparison with [NaN] is false. *)
Definition gtNum (a : number) (b : Z) : bool :=
  match a with
  | NaN => false
  | Num z => b <? z
  end.

(** [String(z)] for an integer: its decimal literal. *)
Definition StringZ (z : Z) : string := NilZero.string_of_int (Z.to_int z).

(** [String(n)] *)
Definition StringNum (n : number) : string :=
  match n with
  | NaN => "NaN"
  | Num z => StringZ z
  end.

Definition readInt (s : string) : number :=
  match NilZero.int_of_string s with
  | Some d => Num (Z.of_int d)
  | None => NaN
  end.

(** [Number(s)] on a string: the empty or blank string is [0]; an optional
    sign and decimal digits give the integer. *)
Definition Number (s : string) : number :=
  match trim s with
  | EmptyString => Num 0
  | String "+" t =>
      match t with
      | String "-" _ => NaN
      | _ => readInt t
      end
  | t => readInt t
  end.

(** [x || d] where [x] is a string or [null]: the empty string and [null]
    are falsy. *)
Definition orStr (x : option string) (d : string) : string :=
  match x with
  | Some EmptyString => d
  | Some s => s
  | None => d
  end.

(** ToBoolean on a string. *)
Definition truthyStr (s : string) : bool :=
  match s with
  | EmptyString => false
  | _ => true
  end.

(** Notions used to state properties of strings. *)

Fixpoint allChars (P : ascii -> bool) (s : string) : bool :=
  match s with
  | EmptyString => true
  | String c s' => P c && allChars P s'
  end.

Definition firstChar (s : string) : option ascii :=
  match s with
  | EmptyString => None
  | String c _ => Some c
  end.

Fixpoint lastChar (s : string) : option ascii :=
  match s with
  | EmptyString => None
  | String c EmptyString => Some c
  | String _ s' => lastChar s'
  end.

(** A character of a decimal integer literal: a digit or the minus sign. *)
Definition isLiteralChar (c : ascii) : bool :=
  match N_of_ascii c with
  | 45%N | 48%N | 49%N | 50%N | 51%N | 52%N | 53%N | 54%N | 55%N | 56%N
  | 57%N => true
  | _ => false
  end.

End Js.

(** ** auth.js: the session gate *)

Module Auth.
Import Js.

Definition AUTH_EXP_KEY : string := "ienergy_portal_session_expiry_v3".
Definition AUTH_ROLE_KEY : string := "ienergy_portal_role_v3".
Definition AUTH_USER_KEY : string := "ienergy_portal_user_v3".

(** 15 minutes *)
Definition AUTH_TTL_MS : Z := 15 * 60 * 1000.

Record credential : Type := { password : string; role : string }.

(** The own properties of the object literal [USERS]. *)
Definition USERS : list (string * credential) :=
  [ ("admin", {| password := "iEnergy2023"; role := "admin" |});
    ("user", {| password := "iEnergy"; role := "employee" |}) ].

Definition LEGACY_KEYS_TO_CLEAR : list string :=
  [ "ienergy_portal_session_expiry_v1";
    "ienergy_portal_role_v2";
    "ienergy_portal_user_v2";
    "ienergy_portal_session_expiry_v2";
    "ienergy_home_authed_v1";
    "salary_query_authed_v1";
    "employee_db_authed_v1" ].

(** A Web Storage area as the page finds it. *)
Inductive storageKind : Type :=
  | Blocked
  | Usable (m : gmap string string).

(** [safeStorage(kind)]: the probe writes and removes a test key; an area
    that throws is replaced by [null]. *)
Definition safeStorage (kind : storageKind) : option (gmap string string) :=
  match kind with
  | Blocked => None
  | Usable m => Some (delete "__ienergy_test__" (<["__ienergy_test__" := "1"]> m))
  end.

(** The two module constants [S] (sessionStorage, primary) and [L]
    (localStorage, secondary) with their current contents. *)
Record stores : Type := {
  storeS : option (gmap string string);
  storeL : option (gmap string string)
}.

Definition openStores (ses loc : storageKind) : stores :=
  {| storeS := safeStorage ses; storeL := safeStorage loc |}.

Definition sGet (key : string) (st : stores) : option string :=
  match storeS st with
  | Some m => m !! key
  | None => None
  end.

Definition sSet (key val : string) (st : stores) : stores :=
  match storeS st with
  | Some m => {| storeS := Some (<[key := val]> m); storeL := storeL st |}
  | None => st
  end.

Definition sDel (key : string) (st : stores) : stores :=
  match storeS st with
  | Some m => {| storeS := Some (delete key m); storeL := storeL st |}
  | None => st
  end.

Definition lGet (key : string) (st : stores) : option string :=
  match storeL st with
  | Some m => m !! key
  | None => None
  end.

Definition lSet (key val : string) (st : stores) : stores :=
  match storeL st with
  | Some m => {| storeS := storeS st; storeL := Some (<[key := val]> m) |}
  | None => st
  end.

Definition lDel (key : string) (st : stores) : stores :=
  match storeL st with
  | Some m => {| storeS := storeS st; storeL := Some (delete key m) |}
  | None => st
  end.

(** The object [{ exp, role, user }] *)
Record auth : Type := { exp : number; arole : string; user : string }.

Definition readAuthFrom (storeGet : string -> option string) : auth :=
  {| exp := Number (orStr (storeGet AUTH_EXP_KEY) "0");
     arole := orStr (storeGet AUTH_ROLE_KEY) "";
     user := orStr (storeGet AUTH_USER_KEY) "" |}.

Definition writeAuth (e : number) (r u : string) (st : stores) : stores :=
  let st := sSet AUTH_EXP_KEY (StringNum e) st in
  let st := sSet AUTH_ROLE_KEY r st in
  let st := sSet AUTH_USER_KEY u st in
  let st := lSet AUTH_EXP_KEY (StringNum e) st in
  let st := lSet AUTH_ROLE_KEY r st in
  lSet AUTH_USER_KEY u st.

Definition clearAuth (st : stores) : stores :=
  let st := sDel AUTH_EXP_KEY st in
  let st := sDel AUTH_ROLE_KEY st in
  let st := sDel AUTH_USER_KEY st in
  let st := lDel AUTH_EXP_KEY st in
  let st := lDel AUTH_ROLE_KEY st in
  lDel AUTH_USER_KEY st.

Definition clearLegacy (st : stores) : stores :=
  fold_left (fun st k => lDel k (sDel k st)) LEGACY_KEYS_TO_CLEAR st.

Definition getExpiry (st : stores) : number :=
  let ses := readAuthFrom (fun k => sGet k st) in
  if truthyNum (exp ses) then exp ses
  else
    let loc := readAuthFrom (fun k => lGet k st) in
    if truthyNum (exp loc) then exp loc else Num 0.

Definition getRole (st : stores) : string :=
  let ses := readAuthFrom (fun k => sGet k st) in
  if truthyStr (arole ses) then arole ses
  else
    let loc := readAuthFrom (fun k => lGet k st) in
    if truthyStr (arole loc) then arole loc else "".

Definition getUser (st : stores) : string :=
  let ses := readAuthFrom (fun k => sGet k st) in
  if truthyStr (user ses) then user ses
  else
    let loc := readAuthFrom (fun k => lGet k st) in
    if truthyStr (user loc) then user loc else "".

(** The test [a.exp && a.exp > now() && a.role] *)
Definition live (now : Z) (a : auth) : bool :=
  truthyNum (exp a) && gtNum (exp a) now && truthyStr (arole a).

Definition isSessionValid (now : Z) (st : stores) : bool * stores :=
  let ses := readAuthFrom (fun k => sGet k st) in
  if live now ses then (true, st)
  else
    let loc := readAuthFrom (fun k => lGet k st) in
    if live now loc
    then (true, writeAuth (exp loc) (arole loc) (user loc) st)
    else (false, st).

Definition logout (st : stores) : stores := clearAuth st.

(** What [USERS[u]] evaluates to: an own record, a member inherited from
    [Object.prototype] (a function or object, which has no [password]),
    or [undefined]. *)
Inductive member : Type :=
  | Own (rec : credential)
  | Inherited
  | Undefined.

Definition Object_prototype_keys : list string :=
  [ "constructor"; "__proto__"; "hasOwnProperty"; "isPrototypeOf";
    "propertyIsEnumerable"; "toLocaleString"; "toString"; "valueOf";
    "__defineGetter__"; "__defineSetter__"; "__lookupGetter__";
    "__lookupSetter__" ].

Fixpoint ownRecord (u : string) (tbl : list (string * credential))
  : option credential :=
  match tbl with
  | [] => None
  | (k, rec) :: tbl' => if String.eqb k u then Some rec else ownRecord u tbl'
  end.

Definition USERS_get (u : string) : member :=
  match ownRecord u USERS with
  | Some rec => Own rec
  | None =>
      if existsb (String.eqb u) Object_prototype_keys then Inherited
      else Undefined
  end.

(** The value [login] returns: [{ ok: false }] or
    [{ ok: true, expiry, role, user }]. *)
Inductive loginResult : Type :=
  | NotOk
  | Ok (expiry : Z) (r : string) (u : string).

Definition login (now : Z) (username pass : string) (st : stores)
  : loginResult * stores :=
  let st := clearLegacy st in
  let u := toLowerCase (trim username) in
  match USERS_get u with
  | Undefined => (NotOk, st)
  | Inherited => (NotOk, st)
  | Own rec =>
      if negb (String.eqb pass (password rec)) then (NotOk, st)
      else
        let e := now + AUTH_TTL_MS in
        (Ok e (role rec) u, writeAuth (Num e) (role rec) u st)
  end.

(** *** The page-level gate [ensureAuth(opts)]

    The elements the gate looks up by id, each with the properties the gate
    writes; an element the page does not have is [None].  The state of the
    closure ([lockTimer], [authedCallbackFired]) and the calls made to the
    [onAuthed] callback are part of the page. *)
Record page : Type := {
  authEl : option string;             (* #auth: style.display *)
  appEl : option bool;                (* #app: hidden *)
  deniedEl : option (bool * string);  (* #accessDenied: hidden, style.display *)
  userInput : option string;          (* #usernameInput: value *)
  passInput : option string;          (* #passwordInput: value *)
  errEl : option (string * bool);     (* #authError: textContent, hidden *)
  href : string;                      (* window.location.href *)
  lockTimer : option Z;               (* when the pending logout fires *)
  authedCallbackFired : bool;
  authedCalls : list (string * string * number)  (* role, user, expiry *)
}.

(** The argument [opts] of [ensureAuth]. *)
Record options : Type := {
  optAllowedRoles : option (list string);  (* an array, or anything else *)
  optHomeHref : option string;
  optOnAuthed : bool                       (* a function was given *)
}.

Definition allowedRoles (opts : options) : list string :=
  match optAllowedRoles opts with
  | Some (r :: rs) => r :: rs
  | _ => ["admin"; "employee"]
  end.

Definition homeHref (opts : options) : string :=
  match optHomeHref opts with
  | Some h => if truthyStr h then h else "../index.html"
  | None => "../index.html"
  end.

Definition setAuthDisplay (d : string) (p : page) : page :=
  {| authEl := option_map (fun _ => d) (authEl p); appEl := appEl p;
     deniedEl := deniedEl p; userInput := userInput p;
     passInput := passInput p; errEl := errEl p; href := href p;
     lockTimer := lockTimer p;
     authedCallbackFired := authedCallbackFired p;
     authedCalls := authedCalls p |}.

Definition setAppHidden (h : bool) (p : page) : page :=
  {| authEl := authEl p; appEl := option_map (fun _ => h) (appEl p);
     deniedEl := deniedEl p; userInput := userInput p;
     passInput := passInput p; errEl := errEl p; href := href p;
     lockTimer := lockTimer p;
     authedCallbackFired := authedCallbackFired p;
     authedCalls := authedCalls p |}.

Definition setDenied (f : bool * string -> bool * string) (p : page) : page :=
  {| authEl := authEl p; appEl := appEl p;
     deniedEl := option_map f (deniedEl p); userInput := userInput p;
     passInput := passInput p; errEl := errEl p; href := href p;
     lockTimer := lockTimer p;
     authedCallbackFired := authedCallbackFired p;
     authedCalls := authedCalls p |}.

Definition clearInputs (p : page) : page :=
  {| authEl := authEl p; appEl := appEl p; deniedEl := deniedEl p;
     userInput := option_map (fun _ => "") (userInput p);
     passInput := option_map (fun _ => "") (passInput p);
     errEl := errEl p; href := href p; lockTimer := lockTimer p;
     authedCallbackFired := authedCallbackFired p;
     authedCalls := authedCalls p |}.

Definition setHref (h : string) (p : page) : page :=
  {| authEl := authEl p; appEl := appEl p; deniedEl := deniedEl p;
     userInput := userInput p; passInput := passInput p; errEl := errEl p;
     href := h; lockTimer := lockTimer p;
     authedCallbackFired := authedCallbackFired p;
     authedCalls := authedCalls p |}.

Definition setLockTimer (t : option Z) (p : page) : page :=
  {| authEl := authEl p; appEl := appEl p; deniedEl := deniedEl p;
     userInput := userInput p; passInput := passInput p; errEl := errEl p;
     href := href p; lockTimer := t;
     authedCallbackFired := authedCallbackFired p;
     authedCalls := authedCalls p |}.

Definition recordAuthed (call : string * string * number) (p : page) : page :=
  {| authEl := authEl p; appEl := appEl p; deniedEl := deniedEl p;
     userInput := userInput p; passInput := passInput p; errEl := errEl p;
     href := href p; lockTimer := lockTimer p;
     authedCallbackFired := true;
     authedCalls := (authedCalls p ++ [call])%list |}.

Definition showError (msg : string) (p : page) : page :=
  {| authEl := authEl p; appEl := appEl p; deniedEl := deniedEl p;
     userInput := userInput p; passInput := passInput p;
     errEl := option_map (fun _ => (msg, negb (truthyStr msg))) (errEl p);
     href := href p; lockTimer := lockTimer p;
     authedCallbackFired := authedCallbackFired p;
     authedCalls := authedCalls p |}.

(** The deferred focus of an input is not part of the page state. *)
Definition showLogin (p : page) : page :=
  let p := setAppHidden true p in
  let p := setDenied (fun d => (true, snd d)) p in
  let p := setAuthDisplay "grid" p in
  let p := clearInputs p in
  showError "" p.

Definition showDenied (opts : options) (p : page) : page :=
  let p := setAuthDisplay "none" p in
  let p := setAppHidden true p in
  match deniedEl p with
  | Some _ => setDenied (fun _ => (false, "grid")) p
  | None => setHref (homeHref opts) p
  end.

(** [scheduleLock(expiryMs)]: a timer still pending is cancelled; the new
    one fires at [expiryMs]. *)
Definition scheduleLock (now : Z) (expiryMs : Z) (p : page) (st : stores)
  : page * stores :=
  let p := setLockTimer None p in
  let remaining := expiryMs - now in
  if 0 <? remaining then (setLockTimer (Some (now + remaining)) p, st)
  else (showLogin p, logout st).

Definition showApp (opts : options) (now : Z) (p : page) (st : stores)
  : page * stores :=
  let p := setAuthDisplay "none" p in
  let p := setDenied (fun d => (true, snd d)) p in
  let p := setAppHidden false p in
  let e := getExpiry st in
  let '(p, st) :=
    match e with
    | Num z => if truthyNum e then scheduleLock now z p st else (p, st)
    | NaN => (p, st)
    end in
  if optOnAuthed opts && negb (authedCallbackFired p)
  then (recordAuthed (getRole st, getUser st, e) p, st)
  else (p, st).

Definition enforceRole (opts : options) (p : page) (st : stores)
  : bool * page :=
  let r := getRole st in
  if negb (existsb (String.eqb r) (allowedRoles opts))
  then (false, showDenied opts p)
  else (true, p).

Definition attemptLogin (opts : options) (now : Z) (p : page) (st : stores)
  : page * stores :=
  let u := match userInput p with Some v => v | None => "" end in
  let pw := match passInput p with Some v => v | None => "" end in
  let '(res, st) := login now u pw st in
  match res with
  | NotOk => (showError "Incorrect username or password." p, st)
  | Ok _ _ _ =>
      let p := showError "" p in
      let '(ok, p) := enforceRole opts p st in
      if negb ok then (p, st) else showApp opts now p st
  end.

(** The body of [ensureAuth] after the event handlers are bound. *)
Definition ensureAuth (opts : options) (now : Z) (p : page) (st : stores)
  : page * stores :=
  let st := clearLegacy st in
  let '(valid, st) := isSessionValid now st in
  if valid then
    let '(ok, p) := enforceRole opts p st in
    if negb ok then (p, st) else showApp opts now p st
  else (showLogin p, logout st).

(** *** Notions used to state the properties of the gate *)

Definition sessionKeys : list string :=
  [AUTH_EXP_KEY; AUTH_ROLE_KEY; AUTH_USER_KEY].

(** The stored expiry, role and user name, in the primary and in the
    secondary store. *)
Definition sessionState (st : stores)
  : list (option string) * list (option string) :=
  (map (fun k => sGet k st) sessionKeys, map (fun k => lGet k st) sessionKeys).


(** What [writeAuth] makes of the contents of an available store. *)
Definition withAuth (e : number) (r u : string) (m : gmap string string)
  : gmap string string :=
  <[AUTH_USER_KEY := u]>
    (<[AUTH_ROLE_KEY := r]> (<[AUTH_EXP_KEY := StringNum e]> m)).


(** The page denies access: the app container, if any, is hidden, and the
    denied overlay is shown or, without one, the page goes to the home
    address. *)
Definition deniedPage (opts : options) (before after : page) : Prop :=
  appEl after = option_map (fun _ => true) (appEl before)
  /\ match deniedEl before with
     | Some _ => deniedEl after = Some (false, "grid")
     | None => href after = homeHref opts
     end.

(** Example states. *)


(** A page gated for admins, without a denied overlay, and the stores of
    a logged-in employee. *)
Definition adminsOnly : options :=
  {| optAllowedRoles := Some ["admin"]; optHomeHref := None;
     optOnAuthed := false |}.

Definition gatedPage : page :=
  {| authEl := Some "grid"; appEl := Some false; deniedEl := None;
     userInput := Some "user"; passInput := Some "iEnergy";
     errEl := None; href := "salary-query/index.html"; lockTimer := None;
     authedCallbackFired := false; authedCalls := [] |}.

Definition employeeStores : stores :=
  {| storeS := Some (<[AUTH_EXP_KEY := "900000"]>
                      (<[AUTH_ROLE_KEY := "employee"]>
                        (<[AUTH_USER_KEY := "user"]> ∅)));
     storeL := None |}.

(** What [clearAuth] makes of the contents of an available store. *)
Definition withoutAuth (m : gmap string string) : gmap string string :=
  delete AUTH_USER_KEY (delete AUTH_ROLE_KEY (delete AUTH_EXP_KEY m)).





End Auth.

(** ** salary-query.js: the salary lookup

    The functions of the script are embedded one by one.  The statements
    that follow [loadEmployeesFromFile] in the script outside any function
    (the tail of an earlier body of [loadEmployees]) belong to none of
    them and are not part of the model.  Each asynchronous function runs
    to completion: its awaits are not interleaved with other handlers. *)

Module SalaryQuery.
Import Js.

(** A cell value of a row object produced by [sheet_to_json]. A [Date]
    carries the text [String(v)] gives for it. *)
Inductive cell : Type :=
  | CNull
  | CStr (s : string)
  | CNum (z : Z)
  | CBool (b : bool)
  | CDate (text : string).

(** A row object: own properties from header names to cells. *)
Abbreviation row := (gmap string cell).

(** [String(v)] *)
Definition StringCell (v : cell) : string :=
  match v with
  | CNull => "null"
  | CStr s => s
  | CNum z => StringZ z
  | CBool true => "true"
  | CBool false => "false"
  | CDate text => text
  end.

(** ToBoolean *)
Definition truthy (v : cell) : bool :=
  match v with
  | CNull => false
  | CStr s => truthyStr s
  | CNum z => negb (z =? 0)
  | CBool b => b
  | CDate _ => true
  end.

(** [v !== ''] *)
Definition notEmptyStr (v : cell) : bool :=
  match v with
  | CStr EmptyString => false
  | _ => true
  end.

Definition normalizeCode (v : cell) : string :=
  match v with
  | CNull => ""
  | _ => trim (StringCell v)
  end.

Fixpoint getField (r : row) (keys : list string) : cell :=
  match keys with
  | [] => CStr ""
  | k :: keys' =>
      match r !! k with
      | Some v => if notEmptyStr v then v else getField r keys'
      | None => getField r keys'
      end
  end.

(** The text of a result field: the dash placeholder or a string. *)
Inductive text : Type :=
  | Dash
  | Text (s : string).

(** One entry of the [attempts] array of [fetchExcelWithFallback]. *)
Inductive attempt : Type :=
  | Responded (url : string) (status : Z) (ok : bool)
  | Failed (url : string) (error : string).

(** What [elStatus.textContent] is set to. *)
Inductive message : Type :=
  | MsgEmpty
  | MsgLoading                           (* Loading employees file... *)
  | MsgLoaded (n : nat)                  (* Loaded n employees. *)
  | MsgUnableWeb (tried : list attempt)  (* Unable to load employees.xlsx
                                            from the website. ... Tried: *)
  | MsgLoadingFile (name : string)       (* Loading <name>... *)
  | MsgUnableFile                        (* Unable to read the selected
                                            Excel file. ... *)
  | MsgEnterCode                         (* Please enter an employee code. *)
  | MsgNotFound (code : string).         (* No employee found for code: *)

(** The result of [arrayBuffer()]: a rejection or the bytes. *)
Inductive body : Type :=
  | BodyError (error : string)
  | Body (buf : list Byte.byte).

(** The result of [fetch(url)]: a rejection or a response. *)
Inductive fetched : Type :=
  | NetworkError (error : string)
  | Response (status : Z) (ok : bool) (content : body).

(** A workbook as [XLSX.read] returns it; a sheet is given by the rows
    [sheet_to_json] makes of it. *)
Record workbook : Type := {
  SheetNames : list string;
  Sheets : gmap string (list row)
}.

(** What the script takes from the browser and from the XLSX library. *)
Record env : Type := {
  resolved : list string;             (* the seven URLs, resolved, in order *)
  fetch : string -> fetched;
  XLSX_read : list Byte.byte -> option workbook;  (* [None]: it throws *)
  formatDate : cell -> text;
  formatNumber : cell -> text
}.

(** The file of the file input. *)
Record file : Type := { name : string; content : body }.

(** Network and parser activity, in order: the calls of [fetch] and of
    [parseExcelArrayBuffer], recorded where the script makes them. *)
Inductive event : Type :=
  | EvFetch (url : string)
  | EvParse (buf : list Byte.byte).

Record panel : Type := {
  hidden : bool;          (* elResult has class hidden *)
  rName : text;
  rPosition : text;
  rHiringDate : text;
  rBasicGross : text;
  rBasicSI : text
}.

Record state : Type := {
  employeeMap : gmap string row;
  loaded : bool;
  status : message;
  result : panel;
  fileFallbackHidden : option bool;   (* #fileFallback, if the page has it *)
  trace : list event
}.

Definition setStatus (m : message) (st : state) : state :=
  {| employeeMap := employeeMap st; loaded := loaded st; status := m;
     result := result st; fileFallbackHidden := fileFallbackHidden st;
     trace := trace st |}.

Definition setResult (p : panel) (st : state) : state :=
  {| employeeMap := employeeMap st; loaded := loaded st; status := status st;
     result := p; fileFallbackHidden := fileFallbackHidden st;
     trace := trace st |}.

Definition setIndex (m : gmap string row) (b : bool) (st : state) : state :=
  {| employeeMap := m; loaded := b; status := status st;
     result := result st; fileFallbackHidden := fileFallbackHidden st;
     trace := trace st |}.

Definition revealFileFallback (st : state) : state :=
  {| employeeMap := employeeMap st; loaded := loaded st; status := status st;
     result := result st;
     fileFallbackHidden := option_map (fun _ => false) (fileFallbackHidden st);
     trace := trace st |}.

Definition logEvent (e : event) (st : state) : state :=
  {| employeeMap := employeeMap st; loaded := loaded st; status := status st;
     result := result st; fileFallbackHidden := fileFallbackHidden st;
     trace := (trace st ++ [e])%list |}.

(** The filter of [buildExcelCandidates]: first occurrences, in order. *)
Fixpoint dedupe (seen : gset string) (l : list string) : list string :=
  match l with
  | [] => []
  | u :: l' =>
      if decide (u ∈ seen) then dedupe seen l'
      else u :: dedupe ({[u]} ∪ seen) l'
  end.

Definition buildExcelCandidates (E : env) : list string :=
  dedupe ∅ (resolved E).

(** The loop of [fetchExcelWithFallback]: [Some (buf, url)] when it
    returns, [None] when it falls through and throws. *)
Fixpoint fetchLoop (E : env) (urls : list string) (attempts : list attempt)
  (st : state) : option (list Byte.byte * string) * list attempt * state :=
  match urls with
  | [] => (None, attempts, st)
  | url :: urls' =>
      let st := logEvent (EvFetch url) st in
      match fetch E url with
      | NetworkError e => fetchLoop E urls' (attempts ++ [Failed url e])%list st
      | Response code ok content =>
          let attempts := (attempts ++ [Responded url code ok])%list in
          if negb ok then fetchLoop E urls' attempts st
          else
            match content with
            | BodyError e => fetchLoop E urls' (attempts ++ [Failed url e])%list st
            | Body buf =>
                if (length buf <? 64)%nat then fetchLoop E urls' attempts st
                else (Some (buf, url), attempts, st)
            end
      end
  end.

Definition fetchExcelWithFallback (E : env) (st : state)
  : option (list Byte.byte * string) * list attempt * state :=
  fetchLoop E (buildExcelCandidates E) [] st.

Definition CODE_KEYS : list string :=
  [ "EmployeeCode"; "Employee Code"; "EmpCode"; "Code"; "Employee_ID";
    "EmployeeID" ].

Definition codeOf (r : row) : string := normalizeCode (getField r CODE_KEYS).

(** The loop of [loadFromRows]. *)
Definition index (rows : list row) : gmap string row :=
  fold_left
    (fun m r => if truthyStr (codeOf r) then <[codeOf r := r]> m else m)
    rows ∅.

(** The status text is cleared 1.8 s later if it still starts with
    Loaded; that timer is not part of the state. *)
Definition loadFromRows (rows : list row) (st : state) : state :=
  let m := index rows in
  setStatus (MsgLoaded (size m)) (setIndex m true st).

(** [None] when [XLSX.read] throws or the workbook has no sheets. *)
Definition parseExcelArrayBuffer (E : env) (buf : list Byte.byte)
  : option (list row) :=
  match XLSX_read E buf with
  | None => None
  | Some wb =>
      match SheetNames wb with
      | [] => None
      | first :: _ =>
          if negb (truthyStr first) then None
          else Some (default [] (Sheets wb !! first))
      end
  end.

(** The [catch] branch of [loadEmployees]. *)
Definition loadFailed (attempts : list attempt) (st : state) : state :=
  revealFileFallback (setStatus (MsgUnableWeb (take 6 attempts)) st).

Definition loadEmployees (E : env) (st : state) : state :=
  if loaded st then st
  else
    let st := setStatus MsgLoading st in
    match fetchExcelWithFallback E st with
    | (Some (buf, _), _, st) =>
        let st := logEvent (EvParse buf) st in
        match parseExcelArrayBuffer E buf with
        | Some rows => loadFromRows rows st
        | None => loadFailed [] st
        end
    | (None, attempts, st) => loadFailed attempts st
    end.

Definition loadEmployeesFromFile (E : env) (f : option file) (st : state)
  : state :=
  match f with
  | None => st
  | Some f =>
      let st := setStatus (MsgLoadingFile (name f)) st in
      match content f with
      | BodyError _ => setStatus MsgUnableFile st
      | Body buf =>
          let st := logEvent (EvParse buf) st in
          match parseExcelArrayBuffer E buf with
          | None => setStatus MsgUnableFile st
          | Some rows => loadFromRows rows (setIndex ∅ false st)
          end
      end
  end.

Definition shown (v : cell) : text :=
  if truthy v then Text (StringCell v) else Dash.

Definition showRow (E : env) (r : row) (st : state) : state :=
  let name := getField r ["Name"; "EmployeeName"; "Employee Name"] in
  let position := getField r ["Position"; "Title"; "JobTitle"; "Job Title"] in
  let hiring :=
    getField r ["HiringDate"; "Hiring Date"; "HireDate"; "Hire Date"] in
  let gross :=
    getField r ["BasicGrossSalary"; "Basic Gross Salary"; "BasicGross";
                "Basic Gross"] in
  let si :=
    getField r ["BasicSocialInsuranceSalary"; "Basic Social Insurance Salary";
                "BasicSISalary"; "Basic SI Salary"; "SocialInsuranceSalary"] in
  setResult
    {| hidden := false;
       rName := shown name;
       rPosition := shown position;
       rHiringDate := formatDate E hiring;
       rBasicGross := formatNumber E gross;
       rBasicSI := formatNumber E si |} st.

Definition clearResult (st : state) : state :=
  setResult
    {| hidden := true; rName := Dash; rPosition := Dash; rHiringDate := Dash;
       rBasicGross := Dash; rBasicSI := Dash |} st.

(** [handleSearch()], with [input] the value of the code field. *)
Definition handleSearch (E : env) (input : string) (st : state) : state :=
  let st := clearResult st in
  let st := loadEmployees E st in
  if negb (loaded st) then st
  else
    let code := normalizeCode (CStr input) in
    if negb (truthyStr code) then setStatus MsgEnterCode st
    else
      match employeeMap st !! code with
      | None => setStatus (MsgNotFound code) st
      | Some r => showRow E r (setStatus MsgEmpty st)
      end.

(** *** Notions used to state the properties of the lookup *)

Definition logEvents (es : list event) (st : state) : state :=
  fold_left (fun st e => logEvent e st) es st.

(** A candidate the loop of [fetchExcelWithFallback] passes over: the
    fetch fails, the response is not ok, or the payload cannot be read or
    is shorter than 64 bytes. *)
Definition skipped (r : fetched) : bool :=
  match r with
  | Response _ true (Body buf) => (length buf <? 64)%nat
  | _ => true
  end.

(** A candidate that yields a parseable payload. *)
Definition yieldsParseable (E : env) (url : string) : Prop :=
  exists code buf,
    fetch E url = Response code true (Body buf)
    /\ is_Some (parseExcelArrayBuffer E buf).

(** Example data. *)

Definition exampleRows : list row :=
  [ <["EmployeeCode" := CStr "E1"]> (<["Name" := CStr "A"]> ∅);
    <["EmpCode" := CStr "E2"]> (<["Name" := CStr "B"]> ∅) ].

Definition initialState : state :=
  {| employeeMap := ∅; loaded := false; status := MsgEmpty;
     result := {| hidden := true; rName := Dash; rPosition := Dash;
                  rHiringDate := Dash; rBasicGross := Dash;
                  rBasicSI := Dash |};
     fileFallbackHidden := Some true; trace := [] |}.

Definition pageBytes : list Byte.byte := repeat Byte.x3c 64.
Definition sheetBytes : list Byte.byte := repeat Byte.x50 64.

(** A reader that accepts what starts with the letter P, as a zip file
    does, and finds one sheet holding [exampleRows]. *)
Definition readSheetBytes (buf : list Byte.byte) : option workbook :=
  match buf with
  | Byte.x50 :: _ =>
      Some {| SheetNames := ["Sheet1"];
              Sheets := <["Sheet1" := exampleRows]> ∅ |}
  | _ => None
  end.

(** The first candidate answers 200 with a page that is no spreadsheet;
    the second one serves the spreadsheet. *)
Definition pageFirst : env :=
  {| resolved := ["/a/data/employees.xlsx"; "/data/employees.xlsx"];
     fetch := fun url =>
       if String.eqb url "/a/data/employees.xlsx"
       then Response 200 true (Body pageBytes)
       else Response 200 true (Body sheetBytes);
     XLSX_read := readSheetBytes;
     formatDate := fun _ => Dash;
     formatNumber := fun _ => Dash |}.

(** The first candidate is missing; the second one serves the
    spreadsheet. *)
Definition missingFirst : env :=
  {| resolved := ["/a/data/employees.xlsx"; "/a/data/employees.xlsx";
                  "/data/employees.xlsx"];
     fetch := fun url =>
       if String.eqb url "/a/data/employees.xlsx"
       then Response 404 false (Body [])
       else Response 200 true (Body sheetBytes);
     XLSX_read := readSheetBytes;
     formatDate := fun _ => Dash;
     formatNumber := fun _ => Dash |}.

(** A header under which the row has no value or the empty string. *)
Definition blank (r : row) (k : string) : Prop :=
  r !! k = None \/ r !! k = Some (CStr "").

Definition isFetch (e : event) : bool :=
  match e with
  | EvFetch _ => true
  | EvParse _ => false
  end.

Definition clearedPanel : panel :=
  {| hidden := true; rName := Dash; rPosition := Dash; rHiringDate := Dash;
     rBasicGross := Dash; rBasicSI := Dash |}.

End SalaryQuery.

(** ** Facts about the primitives *)

Module JsFacts.
Import Js.

Example trim_example : trim "  E1 " = "E1".
Proof. reflexivity. Qed.

Example toLowerCase_example : toLowerCase (trim " AdMin ") = "admin".
Proof. reflexivity. Qed.

Example Number_examples :
  Number "1700000000000" = Num 1700000000000
  /\ Number " 12 " = Num 12 /\ Number "" = Num 0 /\ Number "-0" = Num 0
  /\ Number "abc" = NaN /\ Number "+" = NaN.
Proof. repeat split. Qed.

Example StringZ_example : StringZ 900000 = "900000" /\ StringZ (-5) = "-5".
Proof. split; reflexivity. Qed.

Lemma literal_not_space c : isLiteralChar c = true -> isWhiteSpace c = false.
Proof.
  unfold isLiteralChar, isWhiteSpace.
  destruct c as [[] [] [] [] [] [] [] []]; vm_compute; congruence.
Qed.

Lemma trimStart_id s :
  allChars (fun c => negb (isWhiteSpace c)) s = true -> trimStart s = s.
Proof.
  destruct s as [|c s]; simpl; [reflexivity|].
  intros H. apply andb_prop in H as [Hc _].
  apply negb_true_iff in Hc. now rewrite Hc.
Qed.

Lemma trimEnd_id s :
  allChars (fun c => negb (isWhiteSpace c)) s = true -> trimEnd s = s.
Proof.
  induction s as [|c s IH]; simpl; [reflexivity|].
  intros H. apply andb_prop in H as [Hc Hs].
  apply negb_true_iff in Hc. rewrite (IH Hs), Hc. now destruct s.
Qed.

Lemma trim_id s :
  allChars (fun c => negb (isWhiteSpace c)) s = true -> trim s = s.
Proof.
  intros H. unfold trim. rewrite (trimStart_id _ H). now apply trimEnd_id.
Qed.

Lemma allChars_impl (P Q : ascii -> bool) s :
  (forall c, P c = true -> Q c = true) ->
  allChars P s = true -> allChars Q s = true.
Proof.
  intros HPQ. induction s as [|c s IH]; simpl; [reflexivity|].
  intros H. apply andb_prop in H as [Hc Hs].
  now rewrite (HPQ _ Hc), (IH Hs).
Qed.

Lemma string_of_uint_literal d :
  allChars isLiteralChar (NilEmpty.string_of_uint d) = true.
Proof. induction d; simpl; auto. Qed.

Lemma string_of_int_literal d :
  allChars isLiteralChar (NilZero.string_of_int d) = true.
Proof.
  destruct d as [d|d]; simpl.
  - destruct d; try apply string_of_uint_literal. reflexivity.
  - destruct d; try apply string_of_uint_literal. reflexivity.
Qed.

Lemma StringZ_literal z : allChars isLiteralChar (StringZ z) = true.
Proof. apply string_of_int_literal. Qed.

Lemma trim_StringZ z : trim (StringZ z) = StringZ z.
Proof.
  apply trim_id. eapply allChars_impl; [|apply StringZ_literal].
  intros c Hc. now rewrite (literal_not_space _ Hc).
Qed.

Lemma to_int_proper z : Z.to_int z <> Pos Nil /\ Z.to_int z <> Neg Nil.
Proof.
  destruct z as [|p|p]; simpl; split; try discriminate.
  - intros [= H]. now apply (DecimalPos.Unsigned.to_uint_nonnil p).
  - intros [= H]. now apply (DecimalPos.Unsigned.to_uint_nonnil p).
Qed.

Lemma readInt_StringZ z : readInt (StringZ z) = Num z.
Proof.
  unfold readInt, StringZ.
  destruct (to_int_proper z) as [H1 H2].
  rewrite (NilZero.isi _ H1 H2). now rewrite DecimalZ.of_to.
Qed.

(** [Number(String(z))] is [z]. *)
Lemma Number_StringZ z : Number (StringZ z) = Num z.
Proof.
  unfold Number. rewrite trim_StringZ.
  pose proof (StringZ_literal z) as Hl.
  pose proof (readInt_StringZ z) as Hr.
  destruct (StringZ z) as [|c t] eqn:Hs.
  - discriminate Hr.
  - simpl in Hl. apply andb_prop in Hl as [Hc _].
    destruct c as [[] [] [] [] [] [] [] []]; try discriminate Hc; exact Hr.
Qed.

Lemma StringZ_nonempty z : truthyStr (StringZ z) = true.
Proof.
  pose proof (readInt_StringZ z) as Hr.
  destruct (StringZ z); [discriminate Hr | reflexivity].
Qed.

End JsFacts.

Module AuthFacts.
Import Js JsFacts Auth.

Lemma orStr_empty_default (s : string) : orStr (Some s) "" = s.
Proof. now destruct s. Qed.

Lemma keys_distinct :
  AUTH_EXP_KEY <> AUTH_ROLE_KEY /\ AUTH_EXP_KEY <> AUTH_USER_KEY
  /\ AUTH_ROLE_KEY <> AUTH_USER_KEY.
Proof. repeat split; discriminate. Qed.

Lemma sGet_clearLegacy k st :
  ~ In k LEGACY_KEYS_TO_CLEAR -> sGet k (clearLegacy st) = sGet k st.
Proof.
  unfold clearLegacy. revert st.
  induction LEGACY_KEYS_TO_CLEAR as [|k' ks IH]; intros st Hk; simpl.
  - reflexivity.
  - rewrite IH by (intros H; apply Hk; now right).
    assert (k' <> k) by (intros ->; apply Hk; now left).
    destruct st as [[mS|] mL]; unfold sGet, lDel, sDel; simpl;
      destruct mL; simpl; try reflexivity; now apply lookup_delete_ne.
Qed.

Lemma lGet_clearLegacy k st :
  ~ In k LEGACY_KEYS_TO_CLEAR -> lGet k (clearLegacy st) = lGet k st.
Proof.
  unfold clearLegacy. revert st.
  induction LEGACY_KEYS_TO_CLEAR as [|k' ks IH]; intros st Hk; simpl.
  - reflexivity.
  - rewrite IH by (intros H; apply Hk; now right).
    assert (k' <> k) by (intros ->; apply Hk; now left).
    destruct st as [mS [mL|]]; unfold lGet, lDel, sDel; simpl;
      destruct mS; simpl; try reflexivity; now apply lookup_delete_ne.
Qed.

Lemma storeS_clearLegacy st :
  is_Some (storeS (clearLegacy st)) <-> is_Some (storeS st).
Proof.
  unfold clearLegacy. revert st.
  induction LEGACY_KEYS_TO_CLEAR as [|k' ks IH]; intros st; simpl.
  - reflexivity.
  - rewrite IH. destruct st as [[mS|] [mL|]]; simpl; split; intros [x Hx]; eauto; discriminate.
Qed.


Lemma read_written z r u (m : gmap string string) :
  readAuthFrom
    (fun k => <[AUTH_USER_KEY := u]>
                (<[AUTH_ROLE_KEY := r]> (<[AUTH_EXP_KEY := StringZ z]> m)) !! k)
  = {| exp := Num z; arole := r; user := u |}.
Proof.
  destruct keys_distinct as (H1 & H2 & H3).
  unfold readAuthFrom. f_equal.
  - rewrite lookup_insert_ne, lookup_insert_ne, lookup_insert_eq by congruence.
    pose proof (StringZ_nonempty z) as Hn.
    destruct (StringZ z) eqn:Hs; [discriminate Hn|].
    simpl. rewrite <- Hs. apply Number_StringZ.
  - rewrite lookup_insert_ne, lookup_insert_eq by congruence.
    apply orStr_empty_default.
  - rewrite lookup_insert_eq. apply orStr_empty_default.
Qed.

Lemma readS_writeAuth z r u st :
  is_Some (storeS st) ->
  readAuthFrom (fun k => sGet k (writeAuth (Num z) r u st))
  = {| exp := Num z; arole := r; user := u |}.
Proof.
  intros [mS HS]. destruct st as [s [mL|]]; simpl in HS; subst s;
    unfold writeAuth, sSet, lSet, sGet; simpl; apply read_written.
Qed.

Lemma readL_writeAuth z r u st :
  is_Some (storeL st) ->
  readAuthFrom (fun k => lGet k (writeAuth (Num z) r u st))
  = {| exp := Num z; arole := r; user := u |}.
Proof.
  intros [mL HL]. destruct st as [[mS|] l]; simpl in HL; subst l;
    unfold writeAuth, sSet, lSet, lGet; simpl; apply read_written.
Qed.

Lemma readS_blocked st :
  storeS st = None ->
  readAuthFrom (fun k => sGet k st) = {| exp := Num 0; arole := ""; user := "" |}.
Proof. intros H. unfold readAuthFrom, sGet. now rewrite H. Qed.

Lemma readL_blocked st :
  storeL st = None ->
  readAuthFrom (fun k => lGet k st) = {| exp := Num 0; arole := ""; user := "" |}.
Proof. intros H. unfold readAuthFrom, lGet. now rewrite H. Qed.

Lemma storeS_writeAuth e r u st :
  is_Some (storeS (writeAuth e r u st)) <-> is_Some (storeS st).
Proof.
  destruct st as [[mS|] [mL|]]; unfold writeAuth, sSet, lSet; simpl;
    split; intros [x Hx]; eauto; discriminate.
Qed.

Lemma storeL_writeAuth e r u st :
  is_Some (storeL (writeAuth e r u st)) <-> is_Some (storeL st).
Proof.
  destruct st as [[mS|] [mL|]]; unfold writeAuth, sSet, lSet; simpl;
    split; intros [x Hx]; eauto; discriminate.
Qed.


End AuthFacts.

Module AuthSpec.
Import Js JsFacts Auth AuthFacts.

Lemma ownRecord_USERS u rec :
  ownRecord u USERS = Some rec <-> In (u, rec) USERS.
Proof.
  unfold USERS; cbn [ownRecord In].
  destruct (String.eqb_spec "admin" u) as [<-|Ha].
  - split.
    + intros [= <-]. now left.
    + intros [[= <-]|[[= ]|[]]]. reflexivity.
  - destruct (String.eqb_spec "user" u) as [<-|Hu].
    + split.
      * intros [= <-]. right. now left.
      * intros [[= ]|[[= <-]|[]]]. reflexivity.
    + split; [discriminate|].
      intros [[= H _]|[[= H _]|[]]]; congruence.
Qed.

Lemma USERS_role_nonempty u rec : In (u, rec) USERS -> truthyStr (role rec) = true.
Proof. intros [[= _ <-]|[[= _ <-]|[]]]; reflexivity. Qed.

Lemma login_Ok_inv now username pass st e r u st' :
  login now username pass st = (Ok e r u, st') ->
  exists rec,
    In (u, rec) USERS /\ u = toLowerCase (trim username)
    /\ pass = password rec /\ r = role rec /\ e = now + AUTH_TTL_MS
    /\ st' = writeAuth (Num e) r u (clearLegacy st).
Proof.
  unfold login, USERS_get.
  destruct (ownRecord (toLowerCase (trim username)) USERS) as [rec|] eqn:Hrec.
  - destruct (String.eqb_spec pass (password rec)) as [->|Hp]; simpl.
    + intros [= <- <- <- <-]. exists rec.
      apply ownRecord_USERS in Hrec. repeat split; auto.
    + discriminate.
  - destruct (existsb _ _); discriminate.
Qed.

(** C1. [login] returns ok, with the role of the record, exactly for the
    pairs whose trimmed and lower-cased user name is a key of [USERS] and
    whose password is that record's password; for every other pair it
    returns not-ok. *)
Theorem login_result now username pass st :
  let u := toLowerCase (trim username) in
  (forall rec, In (u, rec) USERS -> pass = password rec ->
     fst (login now username pass st)
     = Ok (now + AUTH_TTL_MS) (role rec) u)
  /\ ((forall rec, In (u, rec) USERS -> pass <> password rec) ->
     fst (login now username pass st) = NotOk).
Proof.
  intros u. split.
  - intros rec Hin ->. apply ownRecord_USERS in Hin.
    unfold login, USERS_get. fold u. rewrite Hin.
    now rewrite String.eqb_refl.
  - intros Hno. unfold login, USERS_get. fold u.
    destruct (ownRecord u USERS) as [rec|] eqn:Hrec.
    + apply ownRecord_USERS in Hrec.
      destruct (String.eqb_spec pass (password rec)) as [Heq|Hne]; simpl.
      * now destruct (Hno rec Hrec).
      * reflexivity.
    + now destruct (existsb _ _).
Qed.

Lemma login_result_witness :
  fst (login 1000 "  Admin " "iEnergy2023"
         {| storeS := Some ∅; storeL := None |})
  = Ok (1000 + AUTH_TTL_MS) "admin" "admin"
  /\ fst (login 1000 "admin" "ienergy2023"
         {| storeS := Some ∅; storeL := None |}) = NotOk.
Proof.
  split.
  - apply (proj1 (login_result 1000 "  Admin " "iEnergy2023"
                    {| storeS := Some ∅; storeL := None |})
             {| password := "iEnergy2023"; role := "admin" |}).
    + simpl. left. reflexivity.
    + reflexivity.
  - apply (proj2 (login_result 1000 "admin" "ienergy2023"
                    {| storeS := Some ∅; storeL := None |})).
    intros rec [[= <-]|[[= ]|[]]]. simpl. discriminate.
Defined.


Lemma writeAuth_withAuth e r u st :
  writeAuth e r u st
  = {| storeS := withAuth e r u <$> storeS st;
       storeL := withAuth e r u <$> storeL st |}.
Proof. destruct st as [[mS|] [mL|]]; reflexivity. Qed.

Lemma withAuth_again z r u (m : gmap string string) :
  withAuth (Num z) r u (withAuth (Num z) r u m) = withAuth (Num z) r u m.
Proof.
  destruct keys_distinct as (H1 & H2 & H3).
  set (m' := withAuth (Num z) r u m).
  assert (He : <[AUTH_EXP_KEY := StringZ z]> m' = m').
  { apply insert_id. unfold m', withAuth.
    now rewrite lookup_insert_ne, lookup_insert_ne, lookup_insert_eq
      by congruence. }
  assert (Hr : <[AUTH_ROLE_KEY := r]> m' = m').
  { apply insert_id. unfold m', withAuth.
    now rewrite lookup_insert_ne, lookup_insert_eq by congruence. }
  assert (Hu : <[AUTH_USER_KEY := u]> m' = m').
  { apply insert_id. unfold m', withAuth. now rewrite lookup_insert_eq. }
  unfold withAuth at 1. cbn [StringNum]. now rewrite He, Hr, Hu.
Qed.

Lemma writeAuth_again z r u st :
  writeAuth (Num z) r u (writeAuth (Num z) r u st) = writeAuth (Num z) r u st.
Proof.
  rewrite !writeAuth_withAuth. cbn [storeS storeL].
  destruct (storeS st), (storeL st); cbn [fmap option_fmap option_map];
    rewrite ?withAuth_again; reflexivity.
Qed.

Lemma live_written t z r u :
  z <> 0 -> truthyStr r = true ->
  live t {| exp := Num z; arole := r; user := u |} = (t <? z).
Proof.
  intros Hz Hr. unfold live; simpl. rewrite Hr, andb_true_r.
  apply Z.eqb_neq in Hz. now rewrite Hz.
Qed.

Lemma live_blocked t : live t {| exp := Num 0; arole := ""; user := "" |} = false.
Proof. reflexivity. Qed.

Lemma available_cases (o : option (gmap string string)) : is_Some o \/ o = None.
Proof. destruct o; eauto. Qed.

(** After [writeAuth] into at least one available store, the session is
    valid exactly before the written expiry, and checking it changes
    nothing. *)
Lemma isSessionValid_written t z r u st :
  z <> 0 -> truthyStr r = true ->
  is_Some (storeS st) \/ is_Some (storeL st) ->
  isSessionValid t (writeAuth (Num z) r u st)
  = (t <? z, writeAuth (Num z) r u st).
Proof.
  intros Hz Hr Hav. unfold isSessionValid.
  destruct (available_cases (storeS st)) as [HS|HS];
    destruct (available_cases (storeL st)) as [HL|HL].
  - rewrite (readS_writeAuth _ _ _ _ HS), (readL_writeAuth _ _ _ _ HL).
    rewrite live_written by assumption.
    now destruct (t <? z).
  - rewrite (readS_writeAuth _ _ _ _ HS).
    rewrite (readL_blocked (writeAuth (Num z) r u st)).
    + rewrite live_written, live_blocked by assumption. now destruct (t <? z).
    + destruct (storeL (writeAuth (Num z) r u st)) eqn:E; [|reflexivity].
      assert (is_Some (storeL st)) as [x Hx]
        by (apply (storeL_writeAuth (Num z) r u); eauto).
      congruence.
  - rewrite (readL_writeAuth _ _ _ _ HL).
    rewrite (readS_blocked (writeAuth (Num z) r u st)).
    + rewrite live_blocked, live_written by assumption. simpl.
      rewrite writeAuth_again. now destruct (t <? z).
    + destruct (storeS (writeAuth (Num z) r u st)) eqn:E; [|reflexivity].
      assert (is_Some (storeS st)) as [x Hx]
        by (apply (storeS_writeAuth (Num z) r u); eauto).
      congruence.
  - destruct Hav as [[x Hx]|[x Hx]]; congruence.
Qed.

Lemma getExpiry_written z r u st :
  z <> 0 ->
  is_Some (storeS st) \/ is_Some (storeL st) ->
  getExpiry (writeAuth (Num z) r u st) = Num z.
Proof.
  intros Hz Hav. unfold getExpiry.
  assert (Ht : truthyNum (Num z) = true)
    by (simpl; apply Z.eqb_neq in Hz; now rewrite Hz).
  destruct (available_cases (storeS st)) as [HS|HS].
  - rewrite (readS_writeAuth _ _ _ _ HS). simpl exp. now rewrite Ht.
  - destruct Hav as [[x Hx]|HL]; [congruence|].
    rewrite (readS_blocked (writeAuth (Num z) r u st)),
      (readL_writeAuth _ _ _ _ HL).
    + simpl exp. change (truthyNum (Num 0)) with false. cbv iota.
      now rewrite Ht.
    + destruct (storeS (writeAuth (Num z) r u st)) eqn:E; [|reflexivity].
      assert (is_Some (storeS st)) as [x Hx]
        by (apply (storeS_writeAuth (Num z) r u); eauto).
      congruence.
Qed.

Lemma storeL_clearLegacy st :
  is_Some (storeL (clearLegacy st)) <-> is_Some (storeL st).
Proof.
  unfold clearLegacy. revert st.
  induction LEGACY_KEYS_TO_CLEAR as [|k' ks IH]; intros st; simpl.
  - reflexivity.
  - rewrite IH. destruct st as [[mS|] [mL|]]; simpl; split;
      intros [x Hx]; eauto; discriminate.
Qed.





Lemma storeS_blocked_writeAuth e r u st :
  storeS st = None -> storeS (writeAuth e r u st) = None.
Proof.
  intros H. destruct st as [s [mL|]]; simpl in H; subst s; reflexivity.
Qed.




Lemma sessionState_clearLegacy st :
  sessionState (clearLegacy st) = sessionState st.
Proof.
  unfold sessionState, sessionKeys. simpl map.
  rewrite !sGet_clearLegacy, !lGet_clearLegacy; try reflexivity;
    unfold LEGACY_KEYS_TO_CLEAR, AUTH_EXP_KEY, AUTH_ROLE_KEY, AUTH_USER_KEY;
    simpl; intuition discriminate.
Qed.

Lemma login_NotOk_state now username pass st :
  fst (login now username pass st) = NotOk ->
  snd (login now username pass st) = clearLegacy st.
Proof.
  unfold login. destruct (USERS_get _) as [rec| |]; try reflexivity.
  destruct (negb _); [reflexivity | discriminate].
Qed.

(** C4. When [login] returns not-ok, the stored expiry, role and user
    name of both stores are what they were before the call. *)
Theorem login_failure_keeps_session now username pass st :
  fst (login now username pass st) = NotOk ->
  sessionState (snd (login now username pass st)) = sessionState st.
Proof.
  intros H. rewrite (login_NotOk_state _ _ _ _ H).
  apply sessionState_clearLegacy.
Qed.

Lemma login_failure_keeps_session_witness :
  sessionState
    (snd (login 7 "admin" "guess"
            {| storeS := Some (<[AUTH_EXP_KEY := "1000"]>
                                (<[AUTH_ROLE_KEY := "employee"]>
                                  (<[AUTH_USER_KEY := "user"]>
                                    (<["salary_query_authed_v1" := "1"]> ∅))));
               storeL := None |}))
  = ([Some "1000"; Some "employee"; Some "user"], [None; None; None]).
Proof.
  rewrite (login_failure_keeps_session 7 "admin" "guess").
  - reflexivity.
  - reflexivity.
Defined.

(** C10. After [logout], whatever the stores held and whichever of them
    is available, the three session keys are in neither store,
    [isSessionValid] returns false (and writes nothing), and [getRole]
    and [getUser] return the empty string. *)
Theorem logout_ends_session now st :
  isSessionValid now (logout st) = (false, logout st)
  /\ getRole (logout st) = ""
  /\ getUser (logout st) = ""
  /\ sessionState (logout st) = ([None; None; None], [None; None; None]).
Proof.
  assert (Hs : sessionState (logout st)
               = ([None; None; None], [None; None; None])).
  { destruct keys_distinct as (H1 & H2 & H3).
    destruct st as [[mS|] [mL|]];
      unfold sessionState, sessionKeys, logout, clearAuth, sDel, lDel,
        sGet, lGet; simpl;
      repeat first [ rewrite lookup_delete_eq
                   | rewrite lookup_delete_ne by congruence ];
      reflexivity. }
  unfold sessionState, sessionKeys in Hs. simpl in Hs.
  injection Hs as Hs1 Hs2 Hs3 Hl1 Hl2 Hl3.
  unfold isSessionValid, getRole, getUser, readAuthFrom, sessionState,
    sessionKeys.
  simpl map. rewrite Hs1, Hs2, Hs3, Hl1, Hl2, Hl3. repeat split.
Qed.


Lemma allowed_In r l : existsb (String.eqb r) l = true <-> In r l.
Proof.
  rewrite existsb_exists. split.
  - intros (x & Hin & Heq). apply String.eqb_eq in Heq. now subst.
  - intros Hin. exists r. split; [assumption | apply String.eqb_refl].
Qed.

Lemma showDenied_denies opts p : deniedPage opts p (showDenied opts p).
Proof.
  unfold deniedPage, showDenied. destruct p as [a b d ui pi er h lt fired calls].
  destruct d as [d|]; simpl; split; try reflexivity; now destruct b.
Qed.

Lemma enforceRole_not_member opts p st :
  ~ In (getRole st) (allowedRoles opts) ->
  enforceRole opts p st = (false, showDenied opts p).
Proof.
  intros H. unfold enforceRole.
  destruct (existsb _ _) eqn:E; [|reflexivity].
  now apply allowed_In in E.
Qed.

(** C8. [enforceRole] denies every session whose role is not in the
    allow-list: it returns false and the page shows the denied overlay or
    goes to the home address, with the app container hidden.  The initial
    check of [ensureAuth] stops there, without showing the app.  With the
    allow-list ['admin'] this holds for the roles employee and user. *)
Theorem enforceRole_denies opts now p st :
  (~ In (getRole st) (allowedRoles opts) ->
     fst (enforceRole opts p st) = false
     /\ deniedPage opts p (snd (enforceRole opts p st)))
  /\ (forall st',
        isSessionValid now (clearLegacy st) = (true, st') ->
        ~ In (getRole st') (allowedRoles opts) ->
        snd (ensureAuth opts now p st) = st'
        /\ deniedPage opts p (fst (ensureAuth opts now p st)))
  /\ (optAllowedRoles opts = Some ["admin"] ->
      getRole st = "employee" \/ getRole st = "user" ->
        fst (enforceRole opts p st) = false
        /\ deniedPage opts p (snd (enforceRole opts p st))).
Proof.
  assert (Hgen : forall st0, ~ In (getRole st0) (allowedRoles opts) ->
     fst (enforceRole opts p st0) = false
     /\ deniedPage opts p (snd (enforceRole opts p st0))).
  { intros st0 H. rewrite (enforceRole_not_member _ _ _ H).
    split; [reflexivity | apply showDenied_denies]. }
  split; [apply Hgen|split].
  - intros st' Hv Hr. unfold ensureAuth. rewrite Hv.
    rewrite (enforceRole_not_member _ _ _ Hr). cbn [negb fst snd].
    split; [reflexivity | apply showDenied_denies].
  - intros Ho Hr. apply Hgen. unfold allowedRoles. rewrite Ho.
    intros [Ha|[]]. destruct Hr as [Hr|Hr]; rewrite Hr in Ha; discriminate.
Qed.

Lemma enforceRole_denies_witness :
  fst (enforceRole adminsOnly gatedPage employeeStores) = false
  /\ deniedPage adminsOnly gatedPage
       (snd (enforceRole adminsOnly gatedPage employeeStores)).
Proof.
  apply (proj2 (proj2 (enforceRole_denies adminsOnly 0 gatedPage
                         employeeStores))).
  - reflexivity.
  - left. reflexivity.
Defined.

(** The same through the login form: the employee account logs in on a
    page for admins and is denied. *)
Example attemptLogin_employee_denied :
  deniedPage adminsOnly gatedPage
    (fst (attemptLogin adminsOnly 0 gatedPage
            {| storeS := Some ∅; storeL := Some ∅ |})).
Proof. split; reflexivity. Qed.

End AuthSpec.

(** ** Properties of the salary lookup *)

Module SalaryQuerySpec.
Import Js JsFacts SalaryQuery.
Local Open Scope list_scope.

(** *** What [trim] returns *)

Lemma trimStart_first s c :
  firstChar (trimStart s) = Some c -> isWhiteSpace c = false.
Proof.
  induction s as [|a s IH]; simpl; [discriminate|].
  destruct (isWhiteSpace a) eqn:Ea; [exact IH|].
  simpl. now intros [= <-].
Qed.

Lemma trimEnd_first s c :
  firstChar (trimEnd s) = Some c -> firstChar s = Some c.
Proof.
  destruct s as [|a s]; simpl; [discriminate|].
  destruct (trimEnd s); [destruct (isWhiteSpace a)|]; simpl; congruence.
Qed.

Lemma trimEnd_last s c :
  lastChar (trimEnd s) = Some c -> isWhiteSpace c = false.
Proof.
  induction s as [|a s IH]; simpl; [discriminate|].
  destruct (trimEnd s) as [|b t] eqn:Et.
  - destruct (isWhiteSpace a) eqn:Ea; simpl; [discriminate|].
    now intros [= <-].
  - exact IH.
Qed.

Lemma lastChar_nonempty s : s <> "" -> is_Some (lastChar s).
Proof.
  induction s as [|a s IH]; [congruence|]. intros _.
  destruct s as [|b t]; simpl; [eauto|]. apply IH. discriminate.
Qed.

(** The result of [trim] neither starts nor ends with white space. *)
Lemma trim_edges s :
  trim s <> "" ->
  (exists c, firstChar (trim s) = Some c /\ isWhiteSpace c = false)
  /\ (exists c, lastChar (trim s) = Some c /\ isWhiteSpace c = false).
Proof.
  intros Hne. split.
  - destruct (trim s) as [|c t] eqn:Et; [congruence|].
    exists c. split; [reflexivity|].
    apply (trimStart_first s). apply trimEnd_first.
    unfold trim in Et. now rewrite Et.
  - destruct (lastChar_nonempty _ Hne) as [c Hc].
    exists c. split; [assumption|].
    now apply (trimEnd_last (trimStart s)).
Qed.

Lemma normalizeCode_edges v :
  normalizeCode v <> "" ->
  (exists c, firstChar (normalizeCode v) = Some c /\ isWhiteSpace c = false)
  /\ (exists c, lastChar (normalizeCode v) = Some c /\ isWhiteSpace c = false).
Proof.
  destruct v; simpl; try congruence; apply trim_edges.
Qed.

Lemma truthyStr_nonempty s : truthyStr s = true <-> s <> "".
Proof. destruct s; simpl; split; congruence. Qed.

(** *** The index *)

Lemma index_snoc rows r :
  index (rows ++ [r])
  = if truthyStr (codeOf r) then <[codeOf r := r]> (index rows)
    else index rows.
Proof. unfold index. now rewrite fold_left_app. Qed.

Lemma index_lookup_Some rows k r :
  index rows !! k = Some r -> k <> "" /\ codeOf r = k /\ In r rows.
Proof.
  induction rows as [|r' rows IH] using rev_ind.
  - unfold index; simpl. now rewrite lookup_empty.
  - rewrite index_snoc.
    destruct (truthyStr (codeOf r')) eqn:Et.
    + destruct (decide (codeOf r' = k)) as [<-|Hne].
      * rewrite lookup_insert_eq. intros [= <-].
        repeat split; [now apply truthyStr_nonempty|].
        apply in_or_app. right. now left.
      * rewrite lookup_insert_ne by assumption. intros H.
        destruct (IH H) as (H1 & H2 & H3). repeat split; auto.
        apply in_or_app. now left.
    + intros H. destruct (IH H) as (H1 & H2 & H3). repeat split; auto.
      apply in_or_app. now left.
Qed.

Lemma index_lookup_last rows k :
  k <> "" ->
  index rows !! k = last (filter (fun r => codeOf r = k) rows).
Proof.
  intros Hk. induction rows as [|r' rows IH] using rev_ind.
  - unfold index; simpl. now rewrite lookup_empty.
  - rewrite index_snoc, filter_app, filter_cons, filter_nil.
    destruct (decide (codeOf r' = k)) as [Heq|Hne].
    + rewrite last_snoc.
      assert (Ht : truthyStr (codeOf r') = true)
        by (apply truthyStr_nonempty; congruence).
      rewrite Ht, Heq. apply lookup_insert_eq.
    + rewrite app_nil_r, <- IH.
      destruct (truthyStr (codeOf r')); [|reflexivity].
      now apply lookup_insert_ne.
Qed.

(** C9. In the index that [loadFromRows] builds, every key is a non-empty
    string that neither starts nor ends with white space, and a code maps
    to the last row of the source that normalizes to it. *)
Theorem loadFromRows_index rows st :
  (forall k r, employeeMap (loadFromRows rows st) !! k = Some r ->
     k <> ""
     /\ (exists c, firstChar k = Some c /\ isWhiteSpace c = false)
     /\ (exists c, lastChar k = Some c /\ isWhiteSpace c = false))
  /\ (forall k, k <> "" ->
       employeeMap (loadFromRows rows st) !! k
       = last (filter (fun r => codeOf r = k) rows)).
Proof.
  change (employeeMap (loadFromRows rows st)) with (index rows). split.
  - intros k r H. apply index_lookup_Some in H as (Hne & Hk & _).
    split; [assumption|]. subst k. now apply normalizeCode_edges.
  - apply index_lookup_last.
Qed.

Lemma loadFromRows_index_witness :
  employeeMap (loadFromRows exampleRows initialState) !! "E2"
  = last (filter (fun r => codeOf r = "E2") exampleRows).
Proof.
  apply (proj2 (loadFromRows_index exampleRows initialState)).
  discriminate.
Defined.


(** *** Loading once, and replacing the index from a file *)



(** *** Searching *)

Lemma trimEnd_idem s : trimEnd (trimEnd s) = trimEnd s.
Proof.
  induction s as [|c s IH]; simpl; [reflexivity|].
  destruct (trimEnd s) as [|b t] eqn:Et.
  - destruct (isWhiteSpace c) eqn:Ec; simpl; [reflexivity|]. now rewrite Ec.
  - simpl in IH |- *. now rewrite IH.
Qed.

Lemma trim_idem s : trim (trim s) = trim s.
Proof.
  assert (H : trimStart (trim s) = trim s).
  { destruct (trim s) as [|c t] eqn:Et; [reflexivity|].
    assert (Hne : trim s <> "") by (rewrite Et; discriminate).
    destruct (trim_edges s Hne) as [(c' & Hc' & Hw) _].
    rewrite Et in Hc'. simpl in Hc'. injection Hc' as <-.
    simpl. now rewrite Hw. }
  unfold trim at 1. rewrite H. unfold trim. apply trimEnd_idem.
Qed.

Lemma handleSearch_trim E input st :
  handleSearch E (trim input) st = handleSearch E input st.
Proof. unfold handleSearch, normalizeCode, StringCell. now rewrite trim_idem. Qed.

(** C6. After loading the two example rows, searching E1 shows the name A
    and searching E2 shows the name B, the code being found under the
    headers EmployeeCode and EmpCode; searching E3 reports that no
    employee was found; an input with white space around E1 finds E1,
    because the input is trimmed before the lookup. *)
Theorem search_example E st input :
  rName (result (handleSearch E "E1" (loadFromRows exampleRows st))) = Text "A"
  /\ hidden (result (handleSearch E "E1" (loadFromRows exampleRows st))) = false
  /\ rName (result (handleSearch E "E2" (loadFromRows exampleRows st))) = Text "B"
  /\ hidden (result (handleSearch E "E2" (loadFromRows exampleRows st))) = false
  /\ status (handleSearch E "E3" (loadFromRows exampleRows st)) = MsgNotFound "E3"
  /\ hidden (result (handleSearch E "E3" (loadFromRows exampleRows st))) = true
  /\ handleSearch E "  E1 " (loadFromRows exampleRows st)
     = handleSearch E "E1" (loadFromRows exampleRows st)
  /\ handleSearch E (trim input) (loadFromRows exampleRows st)
     = handleSearch E input (loadFromRows exampleRows st)
  /\ rName (result (handleSearch missingFirst "E1" initialState)) = Text "A".
Proof.
  repeat split; try apply handleSearch_trim; vm_compute; reflexivity.
Qed.


(** *** The candidates of [loadEmployees] *)

Lemma logEvents_app es1 es2 st :
  logEvents (es1 ++ es2) st = logEvents es2 (logEvents es1 st).
Proof. unfold logEvents. apply fold_left_app. Qed.

Lemma logEvents_fields es st :
  trace (logEvents es st) = trace st ++ es
  /\ employeeMap (logEvents es st) = employeeMap st
  /\ loaded (logEvents es st) = loaded st
  /\ status (logEvents es st) = status st.
Proof.
  revert st. induction es as [|e es IH]; intros st; simpl.
  - now rewrite app_nil_r.
  - destruct (IH (logEvent e st)) as (H1 & H2 & H3 & H4).
    unfold logEvents in *. simpl. rewrite H1, H2, H3, H4. simpl.
    now rewrite <- app_assoc.
Qed.

Lemma loadFailed_fields attempts st :
  trace (loadFailed attempts st) = trace st
  /\ loaded (loadFailed attempts st) = loaded st
  /\ employeeMap (loadFailed attempts st) = employeeMap st
  /\ status (loadFailed attempts st) = MsgUnableWeb (take 6 attempts).
Proof. repeat split. Qed.

Section Candidates.

Variable E : env.

(** The loop passes over candidates that fail, fetching each once. *)
Lemma fetchLoop_skip pre rest attempts st :
  (forall u, In u pre -> skipped (fetch E u) = true) ->
  exists attempts',
    fetchLoop E (pre ++ rest) attempts st
    = fetchLoop E rest attempts' (logEvents (map EvFetch pre) st).
Proof.
  revert attempts st. induction pre as [|u pre IH]; intros attempts st Hs.
  - exists attempts. reflexivity.
  - assert (Hu : skipped (fetch E u) = true) by (apply Hs; now left).
    assert (Hpre : forall v, In v pre -> skipped (fetch E v) = true)
      by (intros v Hv; apply Hs; now right).
    cbn [app fetchLoop map].
    change (logEvents (EvFetch u :: map EvFetch pre) st)
      with (logEvents (map EvFetch pre) (logEvent (EvFetch u) st)).
    destruct (fetch E u) as [e|code ok [e|buf]]; cbn [skipped] in Hu.
    + apply IH, Hpre.
    + destruct ok; cbn [negb]; apply IH, Hpre.
    + destruct ok; cbn [negb]; [|apply IH, Hpre].
      rewrite Hu. apply IH, Hpre.
Qed.

(** The loop returns the first payload of an ok response that has at
    least 64 bytes. *)
Lemma fetchLoop_hit url post code buf attempts st :
  fetch E url = Response code true (Body buf) ->
  (64 <= length buf)%nat ->
  fetchLoop E (url :: post) attempts st
  = (Some (buf, url), (attempts ++ [Responded url code true])%list,
     logEvent (EvFetch url) st).
Proof.
  intros Hf Hlen. cbn [fetchLoop]. rewrite Hf. cbn [negb].
  assert (H : (length buf <? 64)%nat = false) by (apply Nat.ltb_ge; lia).
  now rewrite H.
Qed.

(** C7, as amended. [loadEmployees] fetches the candidates in order,
    passes over each one that fails (fetch error, response not ok, payload
    unreadable or shorter than 64 bytes), and stops at the first ok
    response with at least 64 bytes.  Only that payload is parsed: if it
    parses, the index is built from its rows; if it does not, the load
    fails there and no later candidate is fetched.  When every candidate
    fails, each was fetched once and nothing is loaded. *)
Theorem loadEmployees_candidates st :
  loaded st = false ->
  (forall pre url post code buf,
     buildExcelCandidates E = (pre ++ url :: post)%list ->
     (forall u, In u pre -> skipped (fetch E u) = true) ->
     fetch E url = Response code true (Body buf) ->
     (64 <= length buf)%nat ->
     trace (loadEmployees E st)
     = (trace st ++ map EvFetch pre ++ [EvFetch url; EvParse buf])%list
     /\ match parseExcelArrayBuffer E buf with
        | Some rows =>
            employeeMap (loadEmployees E st) = index rows
            /\ loaded (loadEmployees E st) = true
        | None =>
            employeeMap (loadEmployees E st) = employeeMap st
            /\ loaded (loadEmployees E st) = false
            /\ status (loadEmployees E st) = MsgUnableWeb []
        end)
  /\ ((forall u, In u (buildExcelCandidates E) -> skipped (fetch E u) = true) ->
      trace (loadEmployees E st)
      = (trace st ++ map EvFetch (buildExcelCandidates E))%list
      /\ employeeMap (loadEmployees E st) = employeeMap st
      /\ loaded (loadEmployees E st) = false).
Proof.
  intros Hl. split.
  - intros pre url post code buf Hc Hpre Hf Hlen.
    unfold loadEmployees, fetchExcelWithFallback. rewrite Hl, Hc.
    destruct (fetchLoop_skip pre (url :: post) [] (setStatus MsgLoading st)
                Hpre) as [attempts' ->].
    rewrite (fetchLoop_hit _ _ _ _ _ _ Hf Hlen).
    destruct (logEvents_fields (map EvFetch pre) (setStatus MsgLoading st))
      as (Ht & Hm & Hld & _).
    destruct (parseExcelArrayBuffer E buf) as [rows|].
    + split; [|split; reflexivity].
      cbn. rewrite Ht. cbn. now rewrite <- !app_assoc.
    + destruct (loadFailed_fields []
                  (logEvent (EvParse buf)
                     (logEvent (EvFetch url)
                        (logEvents (map EvFetch pre)
                           (setStatus MsgLoading st)))))
        as (H1 & H2 & H3 & H4).
      rewrite H1, H2, H3, H4. cbn. rewrite Ht, Hm, Hld. cbn.
      rewrite <- !app_assoc. repeat split; assumption.
  - intros Hall. unfold loadEmployees, fetchExcelWithFallback. rewrite Hl.
    destruct (fetchLoop_skip (buildExcelCandidates E) [] []
                (setStatus MsgLoading st) Hall) as [attempts' Heq].
    rewrite app_nil_r in Heq. rewrite Heq. cbn [fetchLoop].
    destruct (logEvents_fields (map EvFetch (buildExcelCandidates E))
                (setStatus MsgLoading st)) as (Ht & Hm & Hld & _).
    destruct (loadFailed_fields attempts'
                (logEvents (map EvFetch (buildExcelCandidates E))
                   (setStatus MsgLoading st))) as (H1 & H2 & H3 & _).
    rewrite H1, H2, H3, Ht, Hm, Hld. repeat split; assumption.
Qed.

End Candidates.

Lemma loadEmployees_candidates_witness :
  trace (loadEmployees missingFirst initialState)
  = [EvFetch "/a/data/employees.xlsx"; EvFetch "/data/employees.xlsx";
     EvParse sheetBytes]
  /\ employeeMap (loadEmployees missingFirst initialState) = index exampleRows
  /\ loaded (loadEmployees missingFirst initialState) = true.
Proof.
  apply (proj1 (loadEmployees_candidates missingFirst initialState eq_refl)
           ["/a/data/employees.xlsx"] "/data/employees.xlsx" [] 200 sheetBytes).
  - reflexivity.
  - intros u [<-|[]]. reflexivity.
  - reflexivity.
  - vm_compute. lia.
Defined.

(** C7 as stated fails when the first ok response with 64 bytes is not a
    spreadsheet: the load ends there, and the next candidate, which yields
    a parseable payload, is never fetched. *)
Lemma unparseable_first_counterexample :
  buildExcelCandidates pageFirst
  = ["/a/data/employees.xlsx"; "/data/employees.xlsx"]
  /\ ~ yieldsParseable pageFirst "/a/data/employees.xlsx"
  /\ yieldsParseable pageFirst "/data/employees.xlsx"
  /\ trace (loadEmployees pageFirst initialState)
     = [EvFetch "/a/data/employees.xlsx"; EvParse pageBytes]
  /\ loaded (loadEmployees pageFirst initialState) = false
  /\ employeeMap (loadEmployees pageFirst initialState) = ∅.
Proof.
  split; [reflexivity|]. split; [|split; [|repeat split]].
  - intros (code & buf & Hf & Hp). vm_compute in Hf.
    injection Hf as <- <-. vm_compute in Hp. now destruct Hp.
  - exists 200, sheetBytes. split; [reflexivity|].
    exists exampleRows. reflexivity.
Qed.

End SalaryQuerySpec.

(** ** Further properties of the session gate *)

Module AuthExtra.
Import Js JsFacts Auth AuthFacts AuthSpec.
Local Open Scope list_scope.

(** *** The storage probe and the legacy keys *)

(** X1. The probe of [safeStorage] turns a blocked area into [null]; on a
    usable area it keeps every key but the probe key, which is absent
    afterwards even if the area held it. *)
Theorem safeStorage_probe kind :
  match kind with
  | Blocked => safeStorage kind = None
  | Usable m =>
      exists m', safeStorage kind = Some m'
        /\ m' !! "__ienergy_test__" = None
        /\ forall k, k <> "__ienergy_test__" -> m' !! k = m !! k
  end.
Proof.
  destruct kind as [|m]; [reflexivity|].
  eexists. split; [reflexivity|]. split.
  - apply lookup_delete_eq.
  - intros k Hk. rewrite lookup_delete_ne, lookup_insert_ne; congruence.
Qed.

Lemma purge_step k k' st :
  sGet k (lDel k' (sDel k' st)) = (if decide (k' = k) then None else sGet k st)
  /\ lGet k (lDel k' (sDel k' st))
     = (if decide (k' = k) then None else lGet k st).
Proof.
  destruct st as [[mS|] [mL|]]; unfold sGet, lGet, lDel, sDel; cbn;
    destruct (decide (k' = k)) as [->|Hne];
    rewrite ?lookup_delete_eq, ?lookup_delete_ne by assumption;
    split; reflexivity.
Qed.

Lemma purged_other ks k st :
  ~ In k ks ->
  sGet k (fold_left (fun st k => lDel k (sDel k st)) ks st) = sGet k st
  /\ lGet k (fold_left (fun st k => lDel k (sDel k st)) ks st) = lGet k st.
Proof.
  revert st. induction ks as [|k' ks IH]; intros st Hk; [now split|].
  cbn [fold_left].
  destruct (IH (lDel k' (sDel k' st))) as [HS HL];
    [intros H; apply Hk; now right|].
  destruct (purge_step k k' st) as [HS' HL'].
  rewrite HS, HL, HS', HL'.
  destruct (decide (k' = k)) as [->|Hne]; [|now split].
  exfalso. apply Hk. now left.
Qed.

Lemma purged_member ks k st :
  In k ks ->
  sGet k (fold_left (fun st k => lDel k (sDel k st)) ks st) = None
  /\ lGet k (fold_left (fun st k => lDel k (sDel k st)) ks st) = None.
Proof.
  revert st. induction ks as [|k' ks IH]; intros st Hk; [destruct Hk|].
  cbn [fold_left].
  destruct (in_dec string_dec k ks) as [Hin|Hnin]; [now apply IH|].
  destruct Hk as [->|Hk]; [|contradiction].
  destruct (purged_other ks k (lDel k (sDel k st)) Hnin) as [HS HL].
  destruct (purge_step k k st) as [HS' HL'].
  rewrite HS, HL, HS', HL'.
  destruct (decide (k = k)); [now split | congruence].
Qed.

(** X2. [clearLegacy] removes every legacy key from both stores, leaves
    every other key as it was, and blocks or unblocks no store. *)
Theorem clearLegacy_frame st k :
  (In k LEGACY_KEYS_TO_CLEAR ->
     sGet k (clearLegacy st) = None /\ lGet k (clearLegacy st) = None)
  /\ (~ In k LEGACY_KEYS_TO_CLEAR ->
     sGet k (clearLegacy st) = sGet k st
     /\ lGet k (clearLegacy st) = lGet k st)
  /\ (is_Some (storeS (clearLegacy st)) <-> is_Some (storeS st))
  /\ (is_Some (storeL (clearLegacy st)) <-> is_Some (storeL st)).
Proof.
  split; [|split; [|split]].
  - apply purged_member.
  - apply purged_other.
  - apply storeS_clearLegacy.
  - apply storeL_clearLegacy.
Qed.

Lemma clearLegacy_frame_witness :
  sGet "salary_query_authed_v1"
    (clearLegacy
       {| storeS := Some (<["salary_query_authed_v1" := "1"]> ∅);
          storeL := None |}) = None
  /\ lGet "salary_query_authed_v1"
       (clearLegacy
          {| storeS := Some (<["salary_query_authed_v1" := "1"]> ∅);
             storeL := None |}) = None.
Proof.
  apply (proj1 (clearLegacy_frame
                  {| storeS := Some (<["salary_query_authed_v1" := "1"]> ∅);
                     storeL := None |} "salary_query_authed_v1")).
  unfold LEGACY_KEYS_TO_CLEAR. simpl. tauto.
Defined.

(** *** Logging in, checking and logging out *)

Lemma blocked_after_write e r u st :
  storeS st = None -> storeL st = None -> writeAuth e r u st = st.
Proof.
  destruct st as [s l]. cbn. intros -> ->. reflexivity.
Qed.

Lemma blocked_after_clearLegacy st :
  storeS st = None -> storeL st = None -> clearLegacy st = st.
Proof.
  destruct st as [s l]. cbn. intros -> ->. reflexivity.
Qed.

Lemma writeAuth_available_S e r u st :
  storeS st = None -> storeS (writeAuth e r u st) = None.
Proof. apply storeS_blocked_writeAuth. Qed.

Lemma storeS_None_writeAuth z r u st :
  storeS st = None ->
  readAuthFrom (fun k => sGet k (writeAuth (Num z) r u st))
  = {| exp := Num 0; arole := ""; user := "" |}.
Proof.
  intros H. apply readS_blocked. now apply storeS_blocked_writeAuth.
Qed.

Lemma getRole_written z r u st :
  truthyStr r = true ->
  is_Some (storeS st) \/ is_Some (storeL st) ->
  getRole (writeAuth (Num z) r u st) = r.
Proof.
  intros Hr Hav. unfold getRole.
  destruct (available_cases (storeS st)) as [HS|HS].
  - rewrite (readS_writeAuth _ _ _ _ HS). cbn [arole]. now rewrite Hr.
  - destruct Hav as [[x Hx]|HL]; [congruence|].
    rewrite (storeS_None_writeAuth _ _ _ _ HS), (readL_writeAuth _ _ _ _ HL).
    cbn [arole truthyStr]. now rewrite Hr.
Qed.

Lemma getUser_written z r u st :
  truthyStr u = true ->
  is_Some (storeS st) \/ is_Some (storeL st) ->
  getUser (writeAuth (Num z) r u st) = u.
Proof.
  intros Hu Hav. unfold getUser.
  destruct (available_cases (storeS st)) as [HS|HS].
  - rewrite (readS_writeAuth _ _ _ _ HS). cbn [user]. now rewrite Hu.
  - destruct Hav as [[x Hx]|HL]; [congruence|].
    rewrite (storeS_None_writeAuth _ _ _ _ HS), (readL_writeAuth _ _ _ _ HL).
    cbn [user truthyStr]. now rewrite Hu.
Qed.

Lemma USERS_key_nonempty u rec : In (u, rec) USERS -> truthyStr u = true.
Proof. intros [[= <- _]|[[= <- _]|[]]]; reflexivity. Qed.

Lemma available_clearLegacy st :
  is_Some (storeS st) \/ is_Some (storeL st) ->
  is_Some (storeS (clearLegacy st)) \/ is_Some (storeL (clearLegacy st)).
Proof.
  intros [H|H]; [left; now apply storeS_clearLegacy
                |right; now apply storeL_clearLegacy].
Qed.

(** X3. After a login that returns ok, with at least one store available,
    the getters read back what [login] returned: [getRole] the role,
    [getUser] the normalized user name and [getExpiry] the expiry,
    whatever session the stores held before. *)
Theorem login_read_back now username pass st e r u st' :
  0 <= now ->
  is_Some (storeS st) \/ is_Some (storeL st) ->
  login now username pass st = (Ok e r u, st') ->
  getRole st' = r /\ getUser st' = u /\ getExpiry st' = Num e
  /\ u = toLowerCase (trim username).
Proof.
  intros Hnow Hav Hlogin.
  apply login_Ok_inv in Hlogin as (rec & Hin & Hu & Hp & Hr & He & ->).
  pose proof (available_clearLegacy _ Hav) as Hav'.
  assert (Hz : e <> 0) by (unfold AUTH_TTL_MS in He; lia).
  repeat split.
  - apply getRole_written; [|assumption].
    subst r. eapply USERS_role_nonempty; eauto.
  - apply getUser_written; [|assumption].
    eapply USERS_key_nonempty; eauto.
  - now apply getExpiry_written.
  - assumption.
Qed.

Lemma login_read_back_witness :
  getRole (snd (login 5 " USER" "iEnergy" employeeStores)) = "employee"
  /\ getUser (snd (login 5 " USER" "iEnergy" employeeStores)) = "user"
  /\ getExpiry (snd (login 5 " USER" "iEnergy" employeeStores))
     = Num (5 + AUTH_TTL_MS)
  /\ "user" = toLowerCase (trim " USER").
Proof.
  apply (login_read_back 5 " USER" "iEnergy" employeeStores
           (5 + AUTH_TTL_MS) "employee" "user").
  - lia.
  - left. unfold employeeStores. cbn. eauto.
  - reflexivity.
Defined.

Lemma blocked_parts now username pass st :
  storeS st = None -> storeL st = None ->
  snd (login now username pass st) = st
  /\ (forall t, isSessionValid t st = (false, st))
  /\ getRole st = "" /\ getUser st = "" /\ getExpiry st = Num 0.
Proof.
  intros HS HL. split.
  - unfold login. rewrite (blocked_after_clearLegacy _ HS HL).
    destruct (USERS_get _) as [rec| |]; try reflexivity.
    destruct (negb _); [reflexivity|].
    cbn [snd]. now apply blocked_after_write.
  - unfold isSessionValid, getRole, getUser, getExpiry.
    rewrite (readS_blocked _ HS), (readL_blocked _ HL).
    repeat split.
Qed.

(** X4. With both stores blocked nothing can be stored: [login] leaves
    the stores as they are even when it returns ok, no session is valid
    at any time, and the getters return their empty values. *)
Theorem login_without_storage now username pass st :
  storeS st = None -> storeL st = None ->
  snd (login now username pass st) = st
  /\ (forall t, isSessionValid t st = (false, st))
  /\ getRole st = "" /\ getUser st = "" /\ getExpiry st = Num 0.
Proof. apply blocked_parts. Qed.

Lemma login_without_storage_witness :
  fst (login 5 "admin" "iEnergy2023" {| storeS := None; storeL := None |})
  = Ok (5 + AUTH_TTL_MS) "admin" "admin"
  /\ snd (login 5 "admin" "iEnergy2023" {| storeS := None; storeL := None |})
     = {| storeS := None; storeL := None |}
  /\ (forall t, isSessionValid t {| storeS := None; storeL := None |}
                = (false, {| storeS := None; storeL := None |})).
Proof.
  split; [reflexivity|].
  destruct (login_without_storage 5 "admin" "iEnergy2023"
              {| storeS := None; storeL := None |} eq_refl eq_refl)
    as (H1 & H2 & _).
  split; assumption.
Defined.

Lemma live_available_L now st :
  live now (readAuthFrom (fun k => lGet k st)) = true -> is_Some (storeL st).
Proof.
  intros H. destruct (available_cases (storeL st)) as [HL|HL]; [assumption|].
  rewrite (readL_blocked _ HL) in H. discriminate H.
Qed.

Lemma live_parts now a :
  live now a = true ->
  exists z, exp a = Num z /\ z <> 0 /\ now < z /\ truthyStr (arole a) = true.
Proof.
  unfold live. destruct a as [[|z] r u]; cbn; [discriminate|].
  rewrite !andb_true_iff, negb_true_iff, Z.eqb_neq, Z.ltb_lt.
  intros [[Hz Hlt] Hr]. eauto.
Qed.

(** X5. A second validity check at the same time returns what the first
    one returned and writes nothing more. *)
Theorem isSessionValid_idempotent now st :
  isSessionValid now (snd (isSessionValid now st)) = isSessionValid now st.
Proof.
  unfold isSessionValid at 2 3.
  destruct (live now (readAuthFrom (fun k => sGet k st))) eqn:Es.
  - cbn [snd]. unfold isSessionValid. now rewrite Es.
  - destruct (live now (readAuthFrom (fun k => lGet k st))) eqn:El.
    + cbn [snd]. pose proof (live_available_L _ _ El) as HL.
      destruct (live_parts _ _ El) as (z & Hz & Hne & Hlt & Hr).
      rewrite Hz. rewrite isSessionValid_written; auto.
      apply Z.ltb_lt in Hlt. now rewrite Hlt.
    + cbn [snd]. unfold isSessionValid. now rewrite Es, El.
Qed.

Lemma live_earlier t t' a : t <= t' -> live t' a = true -> live t a = true.
Proof.
  intros Ht H. destruct (live_parts _ _ H) as (z & Hz & Hne & Hlt & Hr).
  unfold live. rewrite Hz, Hr. cbn.
  apply Z.eqb_neq in Hne. rewrite Hne. cbn.
  rewrite andb_true_r. apply Z.ltb_lt. lia.
Qed.

Lemma isSessionValid_fst now st :
  fst (isSessionValid now st)
  = live now (readAuthFrom (fun k => sGet k st))
    || live now (readAuthFrom (fun k => lGet k st)).
Proof.
  unfold isSessionValid.
  destruct (live now (readAuthFrom (fun k => sGet k st))); [reflexivity|].
  now destruct (live now (readAuthFrom (fun k => lGet k st))).
Qed.

(** X6. Validity only decreases with time: stores that hold a valid
    session at a time hold one at every earlier time, so stores found
    invalid stay invalid later unless something is written. *)
Theorem validity_earlier t t' st :
  t <= t' ->
  fst (isSessionValid t' st) = true -> fst (isSessionValid t st) = true.
Proof.
  intros Ht. rewrite !isSessionValid_fst, !orb_true_iff.
  intros [H|H]; [left|right]; eapply live_earlier; eauto.
Qed.

Lemma validity_earlier_witness :
  fst (isSessionValid 10 employeeStores) = true.
Proof.
  apply (validity_earlier 10 899999 employeeStores).
  - lia.
  - reflexivity.
Defined.

Lemma withoutAuth_lookup (m : gmap string string) k :
  withoutAuth m !! k = if bool_decide (In k sessionKeys) then None else m !! k.
Proof.
  unfold withoutAuth. rewrite !lookup_delete. unfold sessionKeys.
  destruct (bool_decide_reflect
              (In k [AUTH_EXP_KEY; AUTH_ROLE_KEY; AUTH_USER_KEY]))
    as [Hin|Hnin].
  - repeat case_decide; try reflexivity.
    cbn in Hin. intuition congruence.
  - repeat case_decide; try reflexivity; exfalso; apply Hnin; cbn; tauto.
Qed.

Lemma logout_withoutAuth st :
  logout st
  = {| storeS := withoutAuth <$> storeS st;
       storeL := withoutAuth <$> storeL st |}.
Proof. destruct st as [[mS|] [mL|]]; reflexivity. Qed.

(** X7. [logout] removes the three session keys and nothing else: every
    other key of either store keeps its value, and logging out twice is
    logging out once. *)
Theorem logout_frame st k :
  (~ In k sessionKeys ->
     sGet k (logout st) = sGet k st /\ lGet k (logout st) = lGet k st)
  /\ logout (logout st) = logout st.
Proof.
  rewrite !logout_withoutAuth. unfold sGet, lGet. cbn [storeS storeL]. split.
  - intros Hk.
    destruct (storeS st), (storeL st); cbn [fmap option_fmap option_map];
      rewrite ?withoutAuth_lookup;
      rewrite ?bool_decide_eq_false_2 by assumption; split; reflexivity.
  - assert (H3 : forall m, withoutAuth (withoutAuth m) = withoutAuth m).
    { intros m. apply map_eq. intros j. rewrite !withoutAuth_lookup.
      now destruct (bool_decide (In j sessionKeys)). }
    destruct (storeS st), (storeL st); cbn [fmap option_fmap option_map];
      rewrite ?H3; reflexivity.
Qed.

Lemma logout_frame_witness :
  sGet "theme" (logout {| storeS := Some (<["theme" := "dark"]> ∅);
                          storeL := None |})
  = sGet "theme" {| storeS := Some (<["theme" := "dark"]> ∅);
                     storeL := None |}
  /\ lGet "theme" (logout {| storeS := Some (<["theme" := "dark"]> ∅);
                             storeL := None |})
     = lGet "theme" {| storeS := Some (<["theme" := "dark"]> ∅);
                       storeL := None |}.
Proof.
  apply (proj1 (logout_frame {| storeS := Some (<["theme" := "dark"]> ∅);
                                storeL := None |} "theme")).
  unfold sessionKeys. cbn. intuition discriminate.
Defined.

(** *** The page gate *)

Lemma getExpiry_valid now st :
  fst (isSessionValid now st) = true ->
  exists z, getExpiry (snd (isSessionValid now st)) = Num z
            /\ z <> 0 /\ now < z.
Proof.
  unfold isSessionValid.
  destruct (live now (readAuthFrom (fun k => sGet k st))) eqn:Es.
  - intros _. cbn [snd].
    destruct (live_parts _ _ Es) as (z & Hz & Hne & Hlt & _).
    exists z. repeat split; auto. unfold getExpiry. rewrite Hz.
    cbn [truthyNum]. apply Z.eqb_neq in Hne. now rewrite Hne.
  - destruct (live now (readAuthFrom (fun k => lGet k st))) eqn:El;
      [|discriminate].
    intros _. cbn [snd].
    destruct (live_parts _ _ El) as (z & Hz & Hne & Hlt & _).
    exists z. repeat split; auto. rewrite Hz.
    apply getExpiry_written; [assumption|].
    right. eapply live_available_L; eauto.
Qed.

(** [showApp] on stores whose expiry lies ahead: the app is shown, the
    lock is scheduled for the expiry and the stores are not touched. *)
Lemma showApp_ahead opts now p st z :
  getExpiry st = Num z -> z <> 0 -> now < z ->
  exists p',
    showApp opts now p st = (p', st)
    /\ authEl p' = option_map (fun _ => "none") (authEl p)
    /\ appEl p' = option_map (fun _ => false) (appEl p)
    /\ deniedEl p' = option_map (fun d => (true, snd d)) (deniedEl p)
    /\ lockTimer p' = Some z
    /\ userInput p' = userInput p /\ passInput p' = passInput p
    /\ errEl p' = errEl p /\ href p' = href p
    /\ authedCalls p'
       = if optOnAuthed opts && negb (authedCallbackFired p)
         then authedCalls p ++ [(getRole st, getUser st, Num z)]
         else authedCalls p.
Proof.
  intros He Hz Hlt. unfold showApp. rewrite He.
  assert (Ht : truthyNum (Num z) = true)
    by (cbn; apply Z.eqb_neq in Hz; now rewrite Hz).
  rewrite Ht. unfold scheduleLock.
  assert (Hr : (0 <? z - now) = true) by (apply Z.ltb_lt; lia).
  rewrite Hr. replace (now + (z - now)) with z by lia.
  destruct p as [a b d ui pi er h lt fired calls].
  cbn [setLockTimer setAppHidden setDenied setAuthDisplay authEl appEl
       deniedEl userInput passInput errEl href lockTimer
       authedCallbackFired authedCalls].
  destruct (optOnAuthed opts && negb fired); eexists;
    (split; [reflexivity|]); cbn; repeat split.
Qed.

Lemma showLogin_fields p :
  authEl (showLogin p) = option_map (fun _ => "grid") (authEl p)
  /\ appEl (showLogin p) = option_map (fun _ => true) (appEl p)
  /\ deniedEl (showLogin p) = option_map (fun d => (true, snd d)) (deniedEl p)
  /\ userInput (showLogin p) = option_map (fun _ => "") (userInput p)
  /\ passInput (showLogin p) = option_map (fun _ => "") (passInput p)
  /\ errEl (showLogin p) = option_map (fun _ => ("", true)) (errEl p)
  /\ lockTimer (showLogin p) = lockTimer p.
Proof. destruct p. cbn. repeat split. Qed.

Lemma showDenied_fields opts p :
  authEl (showDenied opts p) = option_map (fun _ => "none") (authEl p)
  /\ appEl (showDenied opts p) = option_map (fun _ => true) (appEl p)
  /\ (is_Some (deniedEl p) -> deniedEl (showDenied opts p) = Some (false, "grid"))
  /\ lockTimer (showDenied opts p) = lockTimer p.
Proof.
  destruct p as [a b d ui pi er h lt fired calls].
  unfold showDenied. destruct d as [d|]; cbn; repeat split.
  intros [x Hx]. discriminate.
Qed.

Lemma enforceRole_member opts p st :
  In (getRole st) (allowedRoles opts) -> enforceRole opts p st = (true, p).
Proof.
  intros H. unfold enforceRole. apply allowed_In in H. now rewrite H.
Qed.

Lemma role_cases opts st :
  In (getRole st) (allowedRoles opts) \/ ~ In (getRole st) (allowedRoles opts).
Proof.
  destruct (existsb (String.eqb (getRole st)) (allowedRoles opts)) eqn:E.
  - left. now apply allowed_In.
  - right. intros H. apply allowed_In in H. congruence.
Qed.

(** X8. [ensureAuth] shows the app container only for a session that is
    valid now and whose role is in the allow-list; the automatic logout
    is then scheduled for the stored expiry, which lies ahead. *)
Theorem ensureAuth_app_only_if_valid opts now p st :
  is_Some (appEl p) ->
  appEl (fst (ensureAuth opts now p st)) = Some false ->
  fst (isSessionValid now (clearLegacy st)) = true
  /\ snd (ensureAuth opts now p st) = snd (isSessionValid now (clearLegacy st))
  /\ In (getRole (snd (ensureAuth opts now p st))) (allowedRoles opts)
  /\ exists z, getExpiry (snd (ensureAuth opts now p st)) = Num z
               /\ now < z
               /\ lockTimer (fst (ensureAuth opts now p st)) = Some z.
Proof.
  intros [b Hb]. unfold ensureAuth.
  destruct (isSessionValid now (clearLegacy st)) as [valid st1] eqn:Ev.
  destruct valid.
  - destruct (role_cases opts st1) as [Hin|Hnin].
    + rewrite (enforceRole_member _ _ _ Hin). cbn [negb fst snd].
      assert (Hf : fst (isSessionValid now (clearLegacy st)) = true)
        by now rewrite Ev.
      destruct (getExpiry_valid _ _ Hf) as (z & Hz & Hne & Hlt).
      rewrite Ev in Hz. cbn [snd] in Hz.
      destruct (showApp_ahead opts now p st1 z Hz Hne Hlt)
        as (p' & -> & _ & _ & _ & Ht & _).
      cbn [fst snd]. intros _. repeat split; eauto.
    + rewrite (enforceRole_not_member _ _ _ Hnin). cbn [negb fst snd].
      destruct (showDenied_fields opts p) as (_ & Ha & _).
      rewrite Ha, Hb. discriminate.
  - cbn [fst snd]. destruct (showLogin_fields p) as (_ & Ha & _).
    rewrite Ha, Hb. discriminate.
Qed.

Lemma ensureAuth_app_only_if_valid_witness :
  fst (isSessionValid 10 (clearLegacy employeeStores)) = true
  /\ lockTimer
       (fst (ensureAuth {| optAllowedRoles := None; optHomeHref := None;
                           optOnAuthed := true |} 10 gatedPage
               employeeStores)) = Some 900000.
Proof.
  destruct (ensureAuth_app_only_if_valid
              {| optAllowedRoles := None; optHomeHref := None;
                 optOnAuthed := true |} 10 gatedPage employeeStores)
    as (H1 & _ & _ & z & Hz & _ & Ht).
  - unfold gatedPage. cbn. eauto.
  - reflexivity.
  - split; [exact H1|]. rewrite Ht. f_equal.
    vm_compute in Hz. now injection Hz as <-.
Defined.

Lemma logout_session_keys st : 
  sessionState (logout st) = ([None; None; None], [None; None; None]).
Proof.
  rewrite logout_withoutAuth. unfold sessionState, sessionKeys, sGet, lGet.
  cbn [storeS storeL map].
  destruct (storeS st), (storeL st); cbn [fmap option_fmap option_map];
    rewrite ?withoutAuth_lookup; reflexivity.
Qed.



Lemma showError_fields msg p :
  authEl (showError msg p) = authEl p /\ appEl (showError msg p) = appEl p
  /\ deniedEl (showError msg p) = deniedEl p
  /\ userInput (showError msg p) = userInput p
  /\ passInput (showError msg p) = passInput p
  /\ href (showError msg p) = href p
  /\ lockTimer (showError msg p) = lockTimer p
  /\ errEl (showError msg p)
     = option_map (fun _ => (msg, negb (truthyStr msg))) (errEl p).
Proof. destruct p. cbn. repeat split. Qed.

(** X10. A login attempt with wrong credentials shows the error text and
    changes nothing else: the three containers, the inputs (the typed
    password included), the address, the pending lock and the stored
    session stay as they were. *)
Theorem attemptLogin_rejected opts now p st :
  fst (login now (default "" (userInput p)) (default "" (passInput p)) st)
  = NotOk ->
  errEl (fst (attemptLogin opts now p st))
  = option_map (fun _ => ("Incorrect username or password.", false)) (errEl p)
  /\ authEl (fst (attemptLogin opts now p st)) = authEl p
  /\ appEl (fst (attemptLogin opts now p st)) = appEl p
  /\ deniedEl (fst (attemptLogin opts now p st)) = deniedEl p
  /\ userInput (fst (attemptLogin opts now p st)) = userInput p
  /\ passInput (fst (attemptLogin opts now p st)) = passInput p
  /\ lockTimer (fst (attemptLogin opts now p st)) = lockTimer p
  /\ sessionState (snd (attemptLogin opts now p st)) = sessionState st.
Proof.
  intros Hfail. unfold attemptLogin.
  change (match userInput p with Some v => v | None => "" end)
    with (default "" (userInput p)).
  change (match passInput p with Some v => v | None => "" end)
    with (default "" (passInput p)).
  pose proof (login_NotOk_state _ _ _ _ Hfail) as Hst.
  destruct (login now (default "" (userInput p)) (default "" (passInput p)) st)
    as [res st1].
  cbn [fst snd] in Hfail, Hst. subst res st1. cbn [fst snd].
  destruct (showError_fields "Incorrect username or password." p)
    as (H1 & H2 & H3 & H4 & H5 & H6 & H7 & H8).
  rewrite H1, H2, H3, H4, H5, H7, H8.
  repeat split. apply sessionState_clearLegacy.
Qed.

Lemma attemptLogin_rejected_witness :
  errEl (fst (attemptLogin adminsOnly 10
                {| authEl := Some "grid"; appEl := Some true;
                   deniedEl := None; userInput := Some "admin";
                   passInput := Some "letmein"; errEl := Some ("", true);
                   href := ""; lockTimer := None;
                   authedCallbackFired := false; authedCalls := [] |}
                employeeStores))
  = Some ("Incorrect username or password.", false).
Proof.
  apply (proj1 (attemptLogin_rejected adminsOnly 10
                {| authEl := Some "grid"; appEl := Some true;
                   deniedEl := None; userInput := Some "admin";
                   passInput := Some "letmein"; errEl := Some ("", true);
                   href := ""; lockTimer := None;
                   authedCallbackFired := false; authedCalls := [] |}
                employeeStores eq_refl)).
Defined.

Lemma login_read_back_parts now username pass st e r u st' :
  0 <= now ->
  is_Some (storeS st) \/ is_Some (storeL st) ->
  login now username pass st = (Ok e r u, st') ->
  getRole st' = r /\ getExpiry st' = Num e /\ e = now + AUTH_TTL_MS.
Proof.
  intros Hnow Hav Hlogin.
  apply login_Ok_inv in Hlogin as (rec & Hin & Hu & Hp & Hr & He & ->).
  pose proof (available_clearLegacy _ Hav) as Hav'.
  assert (Hz : e <> 0) by (unfold AUTH_TTL_MS in He; lia).
  repeat split; [| now apply getExpiry_written | assumption].
  apply getRole_written; [|assumption].
  subst r. eapply USERS_role_nonempty; eauto.
Qed.

Lemma attemptLogin_unfold opts now p st :
  attemptLogin opts now p st
  = let '(res, st1) :=
      login now (default "" (userInput p)) (default "" (passInput p)) st in
    match res with
    | NotOk => (showError "Incorrect username or password." p, st1)
    | Ok _ _ _ =>
        let '(ok, p1) := enforceRole opts (showError "" p) st1 in
        if negb ok then (p1, st1) else showApp opts now p1 st1
    end.
Proof. reflexivity. Qed.

(** X11. A login attempt with valid credentials for an allowed role, with
    a store available, shows the app, clears the error text and schedules
    the automatic logout for [now + AUTH_TTL_MS]; the typed password stays
    in its input. *)
Theorem attemptLogin_accepted opts now p st e r u st1 :
  0 <= now ->
  is_Some (storeS st) \/ is_Some (storeL st) ->
  login now (default "" (userInput p)) (default "" (passInput p)) st
  = (Ok e r u, st1) ->
  In r (allowedRoles opts) ->
  snd (attemptLogin opts now p st) = st1
  /\ appEl (fst (attemptLogin opts now p st))
     = option_map (fun _ => false) (appEl p)
  /\ authEl (fst (attemptLogin opts now p st))
     = option_map (fun _ => "none") (authEl p)
  /\ deniedEl (fst (attemptLogin opts now p st))
     = option_map (fun d => (true, snd d)) (deniedEl p)
  /\ errEl (fst (attemptLogin opts now p st))
     = option_map (fun _ => ("", true)) (errEl p)
  /\ lockTimer (fst (attemptLogin opts now p st)) = Some (now + AUTH_TTL_MS)
  /\ passInput (fst (attemptLogin opts now p st)) = passInput p.
Proof.
  intros Hnow Hav Hlogin Hr. rewrite attemptLogin_unfold, Hlogin.
  destruct (login_read_back_parts now _ _ st e r u st1 Hnow Hav Hlogin)
    as (Hrole & Hexp & He).
  rewrite <- Hrole in Hr.
  rewrite (enforceRole_member _ _ _ Hr). cbn [negb].
  assert (Hz : e <> 0) by (unfold AUTH_TTL_MS in He; lia).
  assert (Hlt : now < e) by (unfold AUTH_TTL_MS in He; lia).
  destruct (showApp_ahead opts now (showError "" p) st1 e Hexp Hz Hlt)
    as (p' & -> & H1 & H2 & H3 & H4 & _ & H6 & H7 & _).
  destruct (showError_fields "" p) as (E1 & E2 & E3 & _ & E5 & _ & _ & E8).
  cbn [fst snd]. rewrite H1, H2, H3, H4, H6, H7, E1, E2, E3, E5, E8, He.
  repeat split.
Qed.

Lemma attemptLogin_accepted_witness :
  lockTimer
    (fst (attemptLogin
            {| optAllowedRoles := None; optHomeHref := None;
               optOnAuthed := false |} 10 gatedPage
            {| storeS := Some ∅; storeL := None |}))
  = Some (10 + AUTH_TTL_MS).
Proof.
  refine (proj1 (proj2 (proj2 (proj2 (proj2 (proj2
    (attemptLogin_accepted
       {| optAllowedRoles := None; optHomeHref := None;
          optOnAuthed := false |} 10 gatedPage
       {| storeS := Some ∅; storeL := None |}
       (10 + AUTH_TTL_MS) "employee" "user"
       (snd (login 10 "user" "iEnergy" {| storeS := Some ∅; storeL := None |}))
       _ _ _ _))))))).
  - lia.
  - left. cbn. eauto.
  - reflexivity.
  - cbn. tauto.
Defined.

(** X12. With both stores blocked, valid credentials do not open the app:
    the role read back is empty, so on a page whose allow-list does not
    contain the empty role the attempt ends on the denied display. *)
Theorem attemptLogin_without_storage opts now p st :
  storeS st = None -> storeL st = None ->
  ~ In "" (allowedRoles opts) ->
  fst (login now (default "" (userInput p)) (default "" (passInput p)) st)
  <> NotOk ->
  deniedPage opts p (fst (attemptLogin opts now p st))
  /\ snd (attemptLogin opts now p st) = st.
Proof.
  intros HS HL Hempty Hok. rewrite attemptLogin_unfold.
  destruct (blocked_parts now (default "" (userInput p))
              (default "" (passInput p)) st HS HL)
    as (Hst & _ & Hrole & _).
  destruct (login now (default "" (userInput p)) (default "" (passInput p)) st)
    as [res st1].
  cbn [fst snd] in Hok, Hst. subst st1.
  destruct res as [|e r u]; [congruence|].
  rewrite enforceRole_not_member by (rewrite Hrole; exact Hempty).
  cbn [negb fst snd]. split; [|reflexivity].
  pose proof (showDenied_denies opts (showError "" p)) as [Ha Hd].
  destruct (showError_fields "" p) as (_ & E2 & E3 & _).
  unfold deniedPage. rewrite <- E2, <- E3. now split.
Qed.

Lemma attemptLogin_without_storage_witness :
  deniedPage adminsOnly gatedPage
    (fst (attemptLogin adminsOnly 10
            {| authEl := Some "grid"; appEl := Some false; deniedEl := None;
               userInput := Some "admin"; passInput := Some "iEnergy2023";
               errEl := None; href := "salary-query/index.html";
               lockTimer := None; authedCallbackFired := false;
               authedCalls := [] |}
            {| storeS := None; storeL := None |})).
Proof.
  refine (proj1 (attemptLogin_without_storage adminsOnly 10
            {| authEl := Some "grid"; appEl := Some false; deniedEl := None;
               userInput := Some "admin"; passInput := Some "iEnergy2023";
               errEl := None; href := "salary-query/index.html";
               lockTimer := None; authedCallbackFired := false;
               authedCalls := [] |}
            {| storeS := None; storeL := None |} eq_refl eq_refl _ _)).
  - cbn. intuition discriminate.
  - cbn. discriminate.
Defined.

Lemma session_absent st :
  sessionState st = ([None; None; None], [None; None; None]) ->
  forall t, isSessionValid t st = (false, st).
Proof.
  unfold sessionState, sessionKeys. cbn [map].
  intros [= H1 H2 H3 H4 H5 H6] t.
  unfold isSessionValid, readAuthFrom. now rewrite H1, H2, H4, H5.
Qed.

(** X13. [scheduleLock] at or after the expiry ends the session at once:
    the session keys are removed, no later check finds a session and the
    login overlay replaces the app.  Before the expiry it only replaces
    the pending timer by one that fires at the expiry. *)
Theorem scheduleLock_boundary now expiryMs p st :
  (expiryMs <= now ->
     sessionState (snd (scheduleLock now expiryMs p st))
     = ([None; None; None], [None; None; None])
     /\ (forall t, fst (isSessionValid t (snd (scheduleLock now expiryMs p st)))
                   = false)
     /\ appEl (fst (scheduleLock now expiryMs p st))
        = option_map (fun _ => true) (appEl p)
     /\ authEl (fst (scheduleLock now expiryMs p st))
        = option_map (fun _ => "grid") (authEl p)
     /\ lockTimer (fst (scheduleLock now expiryMs p st)) = None)
  /\ (now < expiryMs ->
      snd (scheduleLock now expiryMs p st) = st
      /\ lockTimer (fst (scheduleLock now expiryMs p st)) = Some expiryMs
      /\ appEl (fst (scheduleLock now expiryMs p st)) = appEl p
      /\ authEl (fst (scheduleLock now expiryMs p st)) = authEl p).
Proof.
  unfold scheduleLock. split; intros H.
  - assert (Hr : (0 <? expiryMs - now) = false) by (apply Z.ltb_ge; lia).
    rewrite Hr. cbn [fst snd].
    split; [apply logout_session_keys|].
    split; [intros t; now rewrite (session_absent _ (logout_session_keys st))|].
    destruct p. cbn. repeat split.
  - assert (Hr : (0 <? expiryMs - now) = true) by (apply Z.ltb_lt; lia).
    rewrite Hr. replace (now + (expiryMs - now)) with expiryMs by lia.
    destruct p. cbn. repeat split.
Qed.

Lemma scheduleLock_boundary_witness :
  sessionState (snd (scheduleLock 900000 900000 gatedPage employeeStores))
  = ([None; None; None], [None; None; None]).
Proof.
  apply (proj1 (scheduleLock_boundary 900000 900000 gatedPage employeeStores)).
  lia.
Defined.

Lemma showApp_callback opts now p st :
  authedCallbackFired (fst (showApp opts now p st))
  = authedCallbackFired p || optOnAuthed opts
  /\ (authedCallbackFired p || negb (optOnAuthed opts) = true ->
      authedCalls (fst (showApp opts now p st)) = authedCalls p)
  /\ (authedCallbackFired p || negb (optOnAuthed opts) = false ->
      exists call,
        authedCalls (fst (showApp opts now p st)) = authedCalls p ++ [call]).
Proof.
  unfold showApp.
  destruct p as [a b d ui pi er h lt fired calls].
  destruct (getExpiry st) as [|z];
    [|destruct (truthyNum (Num z));
      [unfold scheduleLock; destruct (0 <? z - now)|]];
    cbn [setLockTimer setAppHidden setDenied setAuthDisplay showLogin
         clearInputs showError authEl appEl deniedEl userInput passInput
         errEl href lockTimer authedCallbackFired authedCalls];
    destruct (optOnAuthed opts), fired;
    cbn [andb negb orb fst snd recordAuthed authedCallbackFired authedCalls];
    repeat split; try discriminate; eauto.
Qed.

(** X24. The [onAuthed] callback is called at most once per page: when a
    callback was given and has not been called, [showApp] calls it once
    and remembers that; in every other case, and on every later
    [showApp], it is not called. *)
Theorem showApp_callback_once opts now p st now' st' :
  authedCallbackFired (fst (showApp opts now p st))
  = authedCallbackFired p || optOnAuthed opts
  /\ (authedCallbackFired p || negb (optOnAuthed opts) = true ->
      authedCalls (fst (showApp opts now p st)) = authedCalls p)
  /\ (authedCallbackFired p || negb (optOnAuthed opts) = false ->
      exists call,
        authedCalls (fst (showApp opts now p st)) = authedCalls p ++ [call])
  /\ authedCalls (fst (showApp opts now' (fst (showApp opts now p st)) st'))
     = authedCalls (fst (showApp opts now p st)).
Proof.
  destruct (showApp_callback opts now p st) as (H1 & H2 & H3).
  split; [assumption|]. split; [assumption|]. split; [assumption|].
  destruct (showApp_callback opts now' (fst (showApp opts now p st)) st')
    as (_ & H & _).
  apply H. rewrite H1.
  destruct (authedCallbackFired p), (optOnAuthed opts); reflexivity.
Qed.

Lemma showApp_callback_once_witness :
  authedCalls (fst (showApp adminsOnly 10 gatedPage employeeStores))
  = authedCalls gatedPage.
Proof.
  apply (proj1 (proj2 (showApp_callback_once adminsOnly 10 gatedPage
                         employeeStores 10 employeeStores))).
  reflexivity.
Defined.

End AuthExtra.

(** ** Further properties of the salary lookup *)

Module SalaryQueryExtra.
Import Js JsFacts SalaryQuery SalaryQuerySpec.
Local Open Scope list_scope.

(** *** Reading a field under its header synonyms *)

Lemma blank_cell (r : row) k v :
  r !! k = Some v -> notEmptyStr v = false -> blank r k.
Proof.
  intros Hk Hv. right. rewrite Hk. f_equal.
  destruct v as [|s| | |]; try discriminate. now destruct s.
Qed.

Lemma getField_skip (r : row) pre rest :
  (forall k, In k pre -> blank r k) ->
  getField r (pre ++ rest) = getField r rest.
Proof.
  induction pre as [|k pre IH]; intros Hb; [reflexivity|].
  cbn [app getField].
  destruct (Hb k (or_introl eq_refl)) as [-> | ->]; cbn [notEmptyStr];
    apply IH; intros k' Hk'; apply Hb; now right.
Qed.

Lemma getField_found (r : row) keys :
  notEmptyStr (getField r keys) = true ->
  exists pre k post,
    keys = pre ++ k :: post /\ r !! k = Some (getField r keys)
    /\ forall k', In k' pre -> blank r k'.
Proof.
  induction keys as [|k keys IH]; cbn [getField]; [discriminate|].
  destruct (r !! k) as [v|] eqn:Hk.
  - destruct (notEmptyStr v) eqn:Hv.
    + intros _. exists [], k, keys. repeat split; auto. intros k' [].
    + intros H. destruct (IH H) as (pre & k0 & post & -> & Hk0 & Hpre).
      exists (k :: pre), k0, post. repeat split; auto.
      intros k' [<-|Hin]; [eapply blank_cell; eauto | auto].
  - intros H. destruct (IH H) as (pre & k0 & post & -> & Hk0 & Hpre).
    exists (k :: pre), k0, post. repeat split; auto.
    intros k' [<-|Hin]; [now left | auto].
Qed.

(** X14. [getField] returns the value of the first listed header under
    which the row has a value other than the empty string, whatever later
    headers hold; it returns the empty string exactly when the row has
    such a value under none of the headers. *)
Theorem getField_first_match (r : row) keys :
  (forall v, notEmptyStr v = true ->
     (getField r keys = v <->
      exists pre k post,
        keys = pre ++ k :: post /\ r !! k = Some v
        /\ forall k', In k' pre -> blank r k'))
  /\ (getField r keys = CStr "" <-> forall k, In k keys -> blank r k).
Proof.
  split.
  - intros v Hv. split.
    + intros <-. now apply getField_found.
    + intros (pre & k & post & -> & Hk & Hpre).
      rewrite (getField_skip _ _ _ Hpre). cbn [getField]. now rewrite Hk, Hv.
  - split.
    + induction keys as [|k keys IH]; cbn [getField]; [intros _ k []|].
      intros H k' [<-|Hin].
      * destruct (r !! k) as [v|] eqn:Hk; [|now left].
        destruct (notEmptyStr v) eqn:Hv; [|eapply blank_cell; eauto].
        subst v. discriminate Hv.
      * apply IH; [|assumption].
        destruct (r !! k) as [v|] eqn:Hk; [|assumption].
        destruct (notEmptyStr v) eqn:Hv; [|assumption].
        subst v. discriminate Hv.
    + intros Hb. rewrite <- (app_nil_r keys).
      now rewrite (getField_skip _ _ _ Hb).
Qed.

Lemma getField_first_match_witness :
  getField (<["EmployeeCode" := CStr ""]> (<["Code" := CNum 7]>
             (<["EmployeeID" := CStr "nine"]> ∅))) CODE_KEYS = CNum 7.
Proof.
  apply (proj1 (getField_first_match _ CODE_KEYS) (CNum 7) eq_refl).
  exists ["EmployeeCode"; "Employee Code"; "EmpCode"], "Code",
         ["Employee_ID"; "EmployeeID"].
  split; [reflexivity|]. split; [reflexivity|].
  intros k' [<-|[<-|[<-|[]]]]; [right|left|left]; reflexivity.
Defined.

(** *** The candidate list *)



(** *** Fetching *)

Ltac skip_step IH url A S Hsk :=
  specialize (IH A S);
  destruct (fetchLoop _ _ A S) as [[[[buf0 u0]|] a'] s'];
  [ destruct IH as (pre & post & code0 & -> & Hpre & Hfu & Hlen & -> & Hlast);
    exists (url :: pre), post, code0; repeat split; auto;
    intros u [<-|Hin]; [exact Hsk | auto]
  | destruct IH as (Hall & -> & Hlen); repeat split; auto;
    [ intros u [<-|Hin]; [exact Hsk | auto]
    | rewrite ?length_app in Hlen; cbn in *; lia ] ].

Lemma fetchLoop_inv E urls attempts st :
  match fetchLoop E urls attempts st with
  | (Some (buf, url), attempts', st') =>
      exists pre post code,
        urls = pre ++ url :: post
        /\ (forall u, In u pre -> skipped (fetch E u) = true)
        /\ fetch E url = Response code true (Body buf)
        /\ (64 <= length buf)%nat
        /\ st' = logEvents (map EvFetch (pre ++ [url])) st
        /\ last attempts' = Some (Responded url code true)
  | (None, attempts', st') =>
      (forall u, In u urls -> skipped (fetch E u) = true)
      /\ st' = logEvents (map EvFetch urls) st
      /\ (length attempts + length urls <= length attempts')%nat
  end.
Proof.
  revert attempts st. induction urls as [|url urls IH]; intros attempts st.
  - cbn. repeat split; [intros u []|lia].
  - cbn [fetchLoop].
    destruct (fetch E url) as [e|code ok [e|buf]] eqn:Hf.
    + assert (Hsk : skipped (fetch E url) = true) by now rewrite Hf.
      skip_step IH url (attempts ++ [Failed url e]) (logEvent (EvFetch url) st) Hsk.
    + assert (Hsk : skipped (fetch E url) = true)
        by (rewrite Hf; now destruct ok).
      destruct ok; cbn [negb].
      * skip_step IH url ((attempts ++ [Responded url code true])
                        ++ [Failed url e])
          (logEvent (EvFetch url) st) Hsk.
      * skip_step IH url (attempts ++ [Responded url code false])
          (logEvent (EvFetch url) st) Hsk.
    + destruct ok; cbn [negb].
      * destruct (length buf <? 64)%nat eqn:Hshort.
        -- assert (Hsk : skipped (fetch E url) = true)
             by (rewrite Hf; exact Hshort).
           skip_step IH url (attempts ++ [Responded url code true])
             (logEvent (EvFetch url) st) Hsk.
        -- exists [], urls, code. apply Nat.ltb_ge in Hshort.
           split; [reflexivity|]. split; [intros u []|].
           split; [exact Hf|]. split; [assumption|].
           split; [reflexivity|apply last_snoc].
      * assert (Hsk : skipped (fetch E url) = true) by now rewrite Hf.
        skip_step IH url (attempts ++ [Responded url code false])
          (logEvent (EvFetch url) st) Hsk.
Qed.

Lemma logEvents_more es st :
  result (logEvents es st) = result st
  /\ fileFallbackHidden (logEvents es st) = fileFallbackHidden st.
Proof.
  revert st. induction es as [|e es IH]; intros st; [now split|].
  destruct (IH (logEvent e st)) as [H1 H2].
  unfold logEvents in *. cbn [fold_left]. rewrite H1, H2. now split.
Qed.

(** X16. [fetchExcelWithFallback] returns a payload exactly when some
    candidate answers ok with at least 64 bytes: the payload is that of
    the first such candidate, every candidate before it failed and was
    fetched once, and none after it is fetched.  It throws exactly when
    every candidate fails, after fetching each of them once and recording
    at least one attempt for each. *)
Theorem fetchExcelWithFallback_outcome E st :
  match fetchExcelWithFallback E st with
  | (Some (buf, url), attempts, st') =>
      exists pre post code,
        buildExcelCandidates E = pre ++ url :: post
        /\ (forall u, In u pre -> skipped (fetch E u) = true)
        /\ fetch E url = Response code true (Body buf)
        /\ (64 <= length buf)%nat
        /\ trace st' = trace st ++ map EvFetch pre ++ [EvFetch url]
        /\ last attempts = Some (Responded url code true)
  | (None, attempts, st') =>
      (forall u, In u (buildExcelCandidates E) -> skipped (fetch E u) = true)
      /\ trace st' = trace st ++ map EvFetch (buildExcelCandidates E)
      /\ (length (buildExcelCandidates E) <= length attempts)%nat
  end.
Proof.
  unfold fetchExcelWithFallback.
  pose proof (fetchLoop_inv E (buildExcelCandidates E) [] st) as H.
  destruct (fetchLoop E (buildExcelCandidates E) [] st)
    as [[[[buf url]|] attempts] st'].
  - destruct H as (pre & post & code & H1 & H2 & H3 & H4 & -> & H6).
    exists pre, post, code. repeat split; auto.
    destruct (logEvents_fields (map EvFetch (pre ++ [url])) st) as (Ht & _).
    rewrite Ht, map_app. reflexivity.
  - destruct H as (H1 & -> & H3). repeat split; auto.
    now destruct (logEvents_fields (map EvFetch (buildExcelCandidates E)) st).
Qed.

(** *** Loads that fail *)

Lemma loadEmployees_failed_parts E st :
  loaded st = false ->
  loaded (loadEmployees E st) = false ->
  employeeMap (loadEmployees E st) = employeeMap st
  /\ result (loadEmployees E st) = result st
  /\ fileFallbackHidden (loadEmployees E st)
     = option_map (fun _ => false) (fileFallbackHidden st)
  /\ exists tried,
       status (loadEmployees E st) = MsgUnableWeb tried
       /\ (length tried <= 6)%nat.
Proof.
  intros Hl. unfold loadEmployees, fetchExcelWithFallback. rewrite Hl.
  pose proof (fetchLoop_inv E (buildExcelCandidates E) []
                (setStatus MsgLoading st)) as H.
  destruct (fetchLoop E (buildExcelCandidates E) [] (setStatus MsgLoading st))
    as [[[[buf url]|] attempts] st'].
  - destruct H as (pre & post & code & _ & _ & _ & _ & -> & _).
    destruct (parseExcelArrayBuffer E buf) as [rows|]; [discriminate|].
    intros _.
    destruct (logEvents_fields (map EvFetch (pre ++ [url]))
                (setStatus MsgLoading st)) as (_ & Hm & _).
    destruct (logEvents_more (map EvFetch (pre ++ [url]))
                (setStatus MsgLoading st)) as (Hr & Hf).
    cbn [loadFailed revealFileFallback setStatus logEvent employeeMap
         loaded status result fileFallbackHidden].
    rewrite Hm, Hr, Hf. repeat split. exists []. split; [reflexivity|].
    cbn. lia.
  - destruct H as (_ & -> & _). intros _.
    destruct (logEvents_fields (map EvFetch (buildExcelCandidates E))
                (setStatus MsgLoading st)) as (_ & Hm & _).
    destruct (logEvents_more (map EvFetch (buildExcelCandidates E))
                (setStatus MsgLoading st)) as (Hr & Hf).
    cbn [loadFailed revealFileFallback setStatus logEvent employeeMap
         loaded status result fileFallbackHidden].
    rewrite Hm, Hr, Hf. repeat split. eexists. split; [reflexivity|].
    rewrite length_take. lia.
Qed.

(** X17. A call of [loadEmployees] that ends without the loaded flag has
    failed cleanly: the index and the result panel are as before, the
    file-upload fallback is revealed if the page has one, and the status
    lists at most six of the attempts. *)
Theorem loadEmployees_failure E st :
  loaded st = false ->
  loaded (loadEmployees E st) = false ->
  employeeMap (loadEmployees E st) = employeeMap st
  /\ result (loadEmployees E st) = result st
  /\ fileFallbackHidden (loadEmployees E st)
     = option_map (fun _ => false) (fileFallbackHidden st)
  /\ exists tried,
       status (loadEmployees E st) = MsgUnableWeb tried
       /\ (length tried <= 6)%nat.
Proof. apply loadEmployees_failed_parts. Qed.

Lemma loadEmployees_failure_witness :
  employeeMap (loadEmployees pageFirst initialState) = ∅
  /\ fileFallbackHidden (loadEmployees pageFirst initialState) = Some false.
Proof.
  destruct (loadEmployees_failure pageFirst initialState eq_refl eq_refl)
    as (H1 & _ & H3 & _).
  split; [exact H1 | exact H3].
Defined.

(** X18. [loadEmployeesFromFile] never fetches.  Without a file it does
    nothing; with a file that cannot be read or parsed it keeps the index
    and the loaded flag it found and reports that the file is unreadable. *)
Theorem loadEmployeesFromFile_failure E f st :
  List.filter isFetch (trace (loadEmployeesFromFile E f st))
  = List.filter isFetch (trace st)
  /\ (f = None -> loadEmployeesFromFile E f st = st)
  /\ (forall f0,
        f = Some f0 ->
        (forall buf, content f0 = Body buf ->
                     parseExcelArrayBuffer E buf = None) ->
        employeeMap (loadEmployeesFromFile E f st) = employeeMap st
        /\ loaded (loadEmployeesFromFile E f st) = loaded st
        /\ status (loadEmployeesFromFile E f st) = MsgUnableFile).
Proof.
  split; [|split].
  - unfold loadEmployeesFromFile. destruct f as [f0|]; [|reflexivity].
    destruct (content f0) as [e|buf]; [reflexivity|].
    destruct (parseExcelArrayBuffer E buf) as [rows|]; cbn;
      rewrite List.filter_app; cbn; now rewrite app_nil_r.
  - intros ->. reflexivity.
  - intros f0 -> Hbad. unfold loadEmployeesFromFile.
    destruct (content f0) as [e|buf] eqn:Hc; [now repeat split|].
    rewrite (Hbad buf eq_refl). now repeat split.
Qed.

Lemma loadEmployeesFromFile_failure_witness :
  employeeMap
    (loadEmployeesFromFile pageFirst
       (Some {| name := "notes.txt"; content := Body pageBytes |})
       (loadFromRows exampleRows initialState))
  = employeeMap (loadFromRows exampleRows initialState)
  /\ loaded
       (loadEmployeesFromFile pageFirst
          (Some {| name := "notes.txt"; content := Body pageBytes |})
          (loadFromRows exampleRows initialState))
     = loaded (loadFromRows exampleRows initialState)
  /\ status
       (loadEmployeesFromFile pageFirst
          (Some {| name := "notes.txt"; content := Body pageBytes |})
          (loadFromRows exampleRows initialState))
     = MsgUnableFile.
Proof.
  apply (proj2 (proj2 (loadEmployeesFromFile_failure pageFirst
           (Some {| name := "notes.txt"; content := Body pageBytes |})
           (loadFromRows exampleRows initialState)))
           {| name := "notes.txt"; content := Body pageBytes |} eq_refl).
  intros buf [= <-]. reflexivity.
Defined.

(** *** The index *)

Lemma index_dom rows :
  dom (index rows)
  = list_to_set (filter (fun c => c <> "") (codeOf <$> rows)).
Proof.
  induction rows as [|r rows IH] using rev_ind; [reflexivity|].
  rewrite index_snoc, fmap_app, filter_app, list_to_set_app_L, <- IH.
  cbn [fmap list_fmap]. rewrite filter_cons, filter_nil.
  destruct (truthyStr (codeOf r)) eqn:Et.
  - rewrite decide_True by now apply truthyStr_nonempty.
    rewrite dom_insert_L, list_to_set_cons, list_to_set_nil.
    now rewrite union_empty_r_L, union_comm_L.
  - rewrite decide_False.
    + now rewrite list_to_set_nil, union_empty_r_L.
    + intros H. apply truthyStr_nonempty in H. congruence.
Qed.

Lemma index_size rows : (size (index rows) <= length rows)%nat.
Proof.
  induction rows as [|r rows IH] using rev_ind; [reflexivity|].
  rewrite index_snoc, length_app. cbn [length].
  destruct (truthyStr (codeOf r)); [|lia].
  rewrite map_size_insert. destruct (index rows !! codeOf r); cbn; lia.
Qed.

(** X19. The number that [loadFromRows] announces is the number of
    distinct non-empty normalized codes among the rows, which is at most
    the number of rows: rows without a code and rows repeating a code are
    not counted. *)
Theorem loadFromRows_count rows st :
  status (loadFromRows rows st)
  = MsgLoaded
      (size (list_to_set (filter (fun c => c <> "") (codeOf <$> rows))
             : gset string))
  /\ (size (list_to_set (filter (fun c => c <> "") (codeOf <$> rows))
            : gset string) <= length rows)%nat.
Proof.
  rewrite <- index_dom, size_dom. split; [reflexivity | apply index_size].
Qed.

(** *** Searching *)

Lemma handleSearch_loaded_cases E input st :
  loaded st = true ->
  handleSearch E input st
  = if negb (truthyStr (trim input))
    then setStatus MsgEnterCode (clearResult st)
    else match employeeMap st !! trim input with
         | None => setStatus (MsgNotFound (trim input)) (clearResult st)
         | Some r => showRow E r (setStatus MsgEmpty (clearResult st))
         end.
Proof.
  intros Hl. unfold handleSearch.
  assert (H : loadEmployees E (clearResult st) = clearResult st).
  { unfold loadEmployees. cbn [clearResult setResult loaded]. now rewrite Hl. }
  rewrite H. cbn [clearResult setResult loaded employeeMap]. rewrite Hl.
  reflexivity.
Qed.

(** X20. A search on a loaded index reads the index and never changes it,
    the loaded flag or the record of fetches and parses.  The result
    panel is shown exactly when the trimmed input is not empty and is a
    key of the index; otherwise the panel is hidden with every field
    reset to the dash, so nothing of an earlier result stays, and the
    status asks for a code or names the code that was not found. *)
Theorem handleSearch_loaded E input st :
  loaded st = true ->
  employeeMap (handleSearch E input st) = employeeMap st
  /\ loaded (handleSearch E input st) = true
  /\ trace (handleSearch E input st) = trace st
  /\ (hidden (result (handleSearch E input st)) = false <->
      trim input <> "" /\ is_Some (employeeMap st !! trim input))
  /\ (hidden (result (handleSearch E input st)) = true ->
      result (handleSearch E input st) = clearedPanel
      /\ (trim input = "" /\ status (handleSearch E input st) = MsgEnterCode
          \/ trim input <> ""
             /\ status (handleSearch E input st) = MsgNotFound (trim input))).
Proof.
  intros Hl. rewrite (handleSearch_loaded_cases _ _ _ Hl).
  destruct (truthyStr (trim input)) eqn:Et; cbn [negb].
  - assert (Hne : trim input <> "") by now apply truthyStr_nonempty.
    destruct (employeeMap st !! trim input) as [r|] eqn:Hk; cbn;
      (split; [reflexivity|]); (split; [assumption|]);
      (split; [reflexivity|]); split.
    + split; [eauto | reflexivity].
    + discriminate.
    + split; [discriminate|]. intros [_ [x Hx]]. discriminate.
    + intros _. split; [reflexivity|]. now right.
  - assert (He : trim input = "").
    { destruct (trim input); [reflexivity | discriminate]. }
    cbn. split; [reflexivity|]. split; [assumption|].
    split; [reflexivity|]. split.
    + split; [discriminate|]. intros [H _]. congruence.
    + intros _. split; [reflexivity|]. now left.
Qed.

Lemma handleSearch_loaded_witness :
  hidden (result (handleSearch pageFirst " E2  "
                    (loadFromRows exampleRows initialState))) = false.
Proof.
  apply (proj1 (proj2 (proj2 (proj2
    (handleSearch_loaded pageFirst " E2  "
       (loadFromRows exampleRows initialState) eq_refl))))).
  split; [discriminate|].
  exists (<["EmpCode" := CStr "E2"]> (<["Name" := CStr "B"]> ∅)).
  reflexivity.
Defined.

(** X21. Every row with a non-empty code can be found: after
    [loadFromRows], a search for its code, with or without white space
    around it, shows the last row of the source that has this code. *)
Theorem indexed_row_found E rows st r input :
  In r rows -> codeOf r <> "" -> trim input = codeOf r ->
  exists r',
    last (filter (fun x => codeOf x = codeOf r) rows) = Some r'
    /\ codeOf r' = codeOf r
    /\ handleSearch E input (loadFromRows rows st)
       = showRow E r' (setStatus MsgEmpty (clearResult (loadFromRows rows st)))
    /\ hidden (result (handleSearch E input (loadFromRows rows st))) = false.
Proof.
  intros Hin Hne Ht.
  assert (Hmem : r ∈ filter (fun x => codeOf x = codeOf r) rows).
  { apply list_elem_of_filter. split; [reflexivity|].
    now apply list_elem_of_In. }
  destruct (last (filter (fun x => codeOf x = codeOf r) rows)) as [r'|] eqn:Hl.
  - exists r'. split; [reflexivity|].
    assert (Hc : codeOf r' = codeOf r).
    { apply last_Some_elem_of in Hl. now apply list_elem_of_filter in Hl. }
    split; [assumption|].
    assert (Heq : handleSearch E input (loadFromRows rows st)
                  = showRow E r'
                      (setStatus MsgEmpty (clearResult (loadFromRows rows st)))).
    { rewrite handleSearch_loaded_cases by reflexivity. rewrite Ht.
      apply truthyStr_nonempty in Hne. rewrite Hne. cbn [negb].
      change (employeeMap (loadFromRows rows st)) with (index rows).
      rewrite index_lookup_last by now apply truthyStr_nonempty.
      now rewrite Hl. }
    split; [assumption|]. now rewrite Heq.
  - apply last_None in Hl. rewrite Hl in Hmem. now apply elem_of_nil in Hmem.
Qed.

Lemma indexed_row_found_witness :
  hidden (result (handleSearch pageFirst " E1"
                    (loadFromRows exampleRows initialState))) = false.
Proof.
  destruct (indexed_row_found pageFirst exampleRows initialState
              (<["EmployeeCode" := CStr "E1"]> (<["Name" := CStr "A"]> ∅))
              " E1") as (r' & _ & _ & _ & H).
  - left. reflexivity.
  - vm_compute. discriminate.
  - reflexivity.
  - exact H.
Defined.

(** X22. A search whose load fails shows nothing: it ends without the
    loaded flag only with the result panel reset and hidden, the index as
    before and the status reporting the failed load; the typed code is not
    looked at, and the next search tries to load again. *)
Theorem handleSearch_load_failed E input st :
  loaded st = false ->
  loaded (handleSearch E input st) = false ->
  handleSearch E input st = loadEmployees E (clearResult st)
  /\ result (handleSearch E input st) = clearedPanel
  /\ employeeMap (handleSearch E input st) = employeeMap st
  /\ exists tried, status (handleSearch E input st) = MsgUnableWeb tried.
Proof.
  intros Hl. unfold handleSearch.
  destruct (loaded (loadEmployees E (clearResult st))) eqn:Hl'; cbn [negb].
  - destruct (negb (truthyStr (normalizeCode (CStr input))));
      [cbn; congruence|].
    destruct (employeeMap (loadEmployees E (clearResult st)) !! _);
      cbn; congruence.
  - intros _.
    destruct (loadEmployees_failed_parts E (clearResult st) Hl Hl')
      as (Hm & Hr & _ & tried & Hs & _).
    rewrite Hm, Hr, Hs. repeat split. eauto.
Qed.

Lemma handleSearch_load_failed_witness :
  result (handleSearch pageFirst "E1" initialState) = clearedPanel
  /\ employeeMap (handleSearch pageFirst "E1" initialState) = ∅.
Proof.
  destruct (handleSearch_load_failed pageFirst "E1" initialState
              eq_refl eq_refl) as (_ & H1 & H2 & _).
  split; [exact H1 | exact H2].
Defined.



End SalaryQueryExtra.
